(** * go-string-pager: a cursor based pager, and what its documentation promises

    A shallow embedding of package [page] (pager.go and options.go) and the
    properties of its construction, its single-page fetch [Next], its
    fetch-everything loop [All] and its completion test [IsAllLoaded].

    Conventions of the embedding.
    - Go's [int] is [Z]: the package only compares a page size with zero
      and hands it on, so no arithmetic can wrap.
    - Go's [string] is [string] (a sequence of bytes), [==] is [String.eqb].
    - A slice is [option (list A)]: [None] is the nil slice, [Some l] a
      non-nil slice with elements [l]. Capacity is not observable and is
      left out of the value, but [make] panics on a capacity that is
      negative or more than the run-time system grants, and that is kept:
      the bound is a parameter of the model, [maxCap].
    - An [error] value is a message, possibly wrapping a cause, as the two
      shapes [fmt.Errorf] produces.
    - The pager is a heap object mutated through its pointer receiver; the
      loader is a caller-supplied object with state of its own. Both live
      in a [State] threaded through every method, together with the log
      of [Load] invocations, which is what lets one say that the loader
      was, or was not, called.
    - A [Load] call is taken to return, and to leave the pager alone: a
      loader that panics, blocks or reaches back into the pager is not
      described. The context is handed to the loader untouched.
    - A method either returns, panics, or (for the loop only) is cut off
      by the fuel of the model: [OutOfFuel] from [All fuel] says that the
      loop of the source is still running after [fuel] iterations. A panic
      comes with the state it happened in, which is what a caller that
      recovers finds. *)

From Stdlib Require Import ZArith List String Bool Lia.
Import ListNotations.
Open Scope string_scope.
Open Scope Z_scope.
Open Scope list_scope.

(** ** Go values *)

(** The errors of package [fmt]: [fmt.Errorf] without a wrapping verb gives a
    plain message, with the wrapping verb a message together with its cause. *)
Inductive error : Type :=
| errorString (s : string)
| wrapError (msg : string) (err : error).

(** The [Error()] method. *)
Definition Error (e : error) : string :=
  match e with
  | errorString s => s
  | wrapError msg _ => msg
  end.

(** The [Unwrap()] method, as [errors.Unwrap] sees it. *)
Definition Unwrap (e : error) : option error :=
  match e with
  | errorString _ => None
  | wrapError _ err => Some err
  end.

(** [fmt.Errorf(msg)] with no verbs. *)
Definition Errorf (msg : string) : error := errorString msg.

(** [fmt.Errorf("page %s: %w", key, err)]. *)
Definition Errorf_page (key : string) (err : error) : error :=
  wrapError ("page " ++ key ++ ": " ++ Error err)%string err.

Definition slice (A : Type) : Type := option (list A).

(** The elements of a slice; the nil slice has none. *)
Definition elems {A : Type} (s : slice A) : list A :=
  match s with
  | None => []
  | Some l => l
  end.

(** [append(s, t...)]: with nothing to add the slice comes back as it is. *)
Definition append {A : Type} (s t : slice A) : slice A :=
  match elems t with
  | [] => s
  | _ :: _ => Some (elems s ++ elems t)
  end.

(** [sync.Once], single threaded: only its [done] flag matters. *)
Record Once : Type := mkOnce { done : bool }.

Definition defaultPageSize : Z := 100.

Definition nilDereference : string :=
  "runtime error: invalid memory address or nil pointer dereference".

Definition makesliceCap : string :=
  "runtime error: makeslice: cap out of range".

(** What the run-time system grants to [make([]T, 0, cap)]: [maxCap] is the
    largest capacity for which it returns. It is at most the allocation
    limit of the platform divided by the size of a [T] (beyond that [make]
    panics with "makeslice: cap out of range"; for a [T] that takes no
    space every capacity an [int] holds is granted), and less on a machine
    that cannot back that much memory, where the program is ended by the
    run-time system instead of returning. *)
Class Makeslice (T : Type) : Type := { maxCap : Z }.

Section Page.

(** The element type [T], the type of [context.Context] values, and the
    state of the caller's loader object (and of whatever it talks to). *)
Context {T Ctx LoaderState : Type} {runtime : Makeslice T}.

(** ** pager.go: types *)

(** What one [Load] call returns: [(page, nextPageKey, err)]. *)
Definition LoadReply : Type := (slice T * string * option error)%type.

(** Interface [Loader[T]]. The method reads and updates the loader's own
    state; a nil interface value is [None] of [option Loader]. *)
Record Loader : Type := mkLoader {
  Load : Ctx -> string -> Z -> LoaderState -> LoadReply * LoaderState
}.

Record Pager : Type := mkPager {
  pageSize : Z;
  nextPageKey : string;
  nextPageLoader : option Loader;
  isFirstPageLoaded : bool;
  isFirstPageLoadedOnce : Once
}.

(** ** options.go *)

(** Type [Option[T]], a function from a pager pointer to an error: here the
    pager as the option leaves it, and the error it returns. *)
Definition Option : Type := Pager -> Pager * option error.

Definition WithNextPageKey (key : string) : Option :=
  fun p =>
    if String.eqb key "" then
      (p, Some (Errorf "next page key must not be empty"))
    else
      (mkPager (pageSize p) key (nextPageLoader p)
               (isFirstPageLoaded p) (isFirstPageLoadedOnce p), None).

Definition WithPageSize (size : Z) : Option :=
  fun p =>
    if size <=? 0 then
      (p, Some (Errorf "page size must be positive"))
    else
      (mkPager size (nextPageKey p) (nextPageLoader p)
               (isFirstPageLoaded p) (isFirstPageLoadedOnce p), None).

Definition WithNextPageLoader (loader : option Loader) : Option :=
  fun p =>
    match loader with
    | None => (p, Some (Errorf "next page loader is required"))
    | Some _ =>
        (mkPager (pageSize p) (nextPageKey p) loader
                 (isFirstPageLoaded p) (isFirstPageLoadedOnce p), None)
    end.

(** ** pager.go: New *)

(** The struct literal [New] starts from; fields it does not name are zero. *)
Definition zeroPager : Pager :=
  mkPager defaultPageSize "" None false (mkOnce false).

(** [for _, opt := range opts { if err := opt(pager); err != nil { return } }]:
    the pager after the loop, with the error that ended it early. *)
Fixpoint applyOptions (opts : list Option) (pager : Pager)
  : Pager * option error :=
  match opts with
  | [] => (pager, None)
  | opt :: rest =>
      match opt pager with
      | (pager', Some err) => (pager', Some err)
      | (pager', None) => applyOptions rest pager'
      end
  end.

(** [New] returns a pager pointer and an error; [None] is nil in both. *)
Definition New (opts : list Option) : option Pager * option error :=
  match applyOptions opts zeroPager with
  | (_, Some err) => (None, Some err)
  | (pager, None) =>
      match nextPageLoader pager with
      | None => (None, Some (Errorf "next page loader is required"))
      | Some _ => (Some pager, None)
      end
  end.

(** ** The state the methods run in *)

(** One [Load] invocation: the key and the size it was given. *)
Definition LoadCall : Type := (string * Z)%type.

Record State : Type := mkState {
  pager : Pager;
  loaderState : LoaderState;
  loads : list LoadCall
}.

Inductive Run (A : Type) : Type :=
| Returns (a : A) (s : State)
| Panics (msg : string) (s : State)
| OutOfFuel.
Arguments Returns {A} a s.
Arguments Panics {A} msg s.
Arguments OutOfFuel {A}.

Definition M (A : Type) : Type := State -> Run A.

Definition ret {A : Type} (a : A) : M A := fun s => Returns a s.

Definition bind {A B : Type} (m : M A) (k : A -> M B) : M B :=
  fun s =>
    match m s with
    | Returns a s' => k a s'
    | Panics msg s' => Panics msg s'
    | OutOfFuel => OutOfFuel
    end.

Notation "x <- m ;; k" := (bind m (fun x => k))
  (at level 100, m at next level, right associativity).
Notation "m ;;; k" := (bind m (fun _ => k))
  (at level 100, right associativity).

(** Reading and writing the receiver [p]. *)
Definition getPager : M Pager := fun s => Returns (pager s) s.

Definition putPager (p : Pager) : M unit :=
  fun s => Returns tt (mkState p (loaderState s) (loads s)).

Definition panic {A : Type} (msg : string) : M A := fun s => Panics msg s.

Definition outOfFuel {A : Type} : M A := fun _ => OutOfFuel.

(** [l.Load(ctx, key, size)] on an interface value: a nil interface panics,
    otherwise the object's method runs on the loader's state and the
    invocation is logged. *)
Definition callLoad (l : option Loader) (ctx : Ctx) (key : string) (size : Z)
  : M LoadReply :=
  fun s =>
    match l with
    | None => Panics nilDereference s
    | Some ld =>
        let (reply, ls') := Load ld ctx key size (loaderState s) in
        Returns reply (mkState (pager s) ls' (loads s ++ [(key, size)]))
    end.

(** The capacities [make] turns down: the negative ones, and those beyond
    what the run-time system grants. *)
Definition refused (cap : Z) : bool := (cap <? 0) || (maxCap <? cap).

(** [make([]T, 0, cap)]. *)
Definition make0 (cap : Z) : M (slice T) :=
  if refused cap then panic makesliceCap else ret (Some []).

(** ** pager.go: methods *)

Definition IsAllLoaded (p : Pager) : bool :=
  String.eqb (nextPageKey p) "" && isFirstPageLoaded p.

(** [once.Do(f)]: [f] runs only when the flag is still clear, and the flag
    is set once [f] is through. The result is the [Once] as the call
    leaves it. *)
Definition Do (o : Once) (f : M unit) : M Once :=
  if done o then ret o else (f ;;; ret (mkOnce true)).

Definition pageLoadedAtLeastOnceTime : M unit :=
  p <- getPager ;;
  o <- Do (isFirstPageLoadedOnce p)
          (putPager (mkPager (pageSize p) (nextPageKey p) (nextPageLoader p)
                             true (isFirstPageLoadedOnce p))) ;;
  p' <- getPager ;;
  putPager (mkPager (pageSize p') (nextPageKey p') (nextPageLoader p')
                    (isFirstPageLoaded p') o).

Definition Next (ctx : Ctx) : M (slice T * option error) :=
  p <- getPager ;;
  if IsAllLoaded p then ret (None, None)
  else
    reply <- callLoad (nextPageLoader p) ctx (nextPageKey p) (pageSize p) ;;
    let '(page, nextPageKey', err) := reply in
    match err with
    | Some e => ret (None, Some (Errorf_page (nextPageKey p) e))
    | None =>
        putPager (mkPager (pageSize p) nextPageKey' (nextPageLoader p)
                          (isFirstPageLoaded p) (isFirstPageLoadedOnce p)) ;;;
        pageLoadedAtLeastOnceTime ;;;
        ret (page, None)
    end.

(** The [for !p.IsAllLoaded() { ... }] loop of [All]; [fuel] bounds the
    number of iterations the model is willing to run. *)
Fixpoint allLoop (fuel : nat) (ctx : Ctx) (allPages : slice T)
  : M (slice T * option error) :=
  p <- getPager ;;
  if IsAllLoaded p then ret (allPages, None)
  else
    match fuel with
    | O => outOfFuel
    | S fuel' =>
        r <- Next ctx ;;
        let '(page, err) := r in
        match err with
        | Some e => ret (allPages, Some e)
        | None => allLoop fuel' ctx (append allPages page)
        end
    end.

Definition All (fuel : nat) (ctx : Ctx) : M (slice T * option error) :=
  p <- getPager ;;
  allPages <- make0 (pageSize p) ;;
  allLoop fuel ctx allPages.

(** ** Vocabulary of the properties *)

(** The options the package itself offers, as a caller writes them down. *)
Inductive Setting : Type :=
| SetNextPageKey (key : string)
| SetPageSize (size : Z)
| SetNextPageLoader (loader : option Loader).

Definition option_of (c : Setting) : Option :=
  match c with
  | SetNextPageKey key => WithNextPageKey key
  | SetPageSize size => WithPageSize size
  | SetNextPageLoader loader => WithNextPageLoader loader
  end.

(** A setting that hands over an actual (non-nil) loader. *)
Definition suppliesLoader (c : Setting) : bool :=
  match c with
  | SetNextPageLoader (Some _) => true
  | _ => false
  end.

(** A setting that touches the page size. *)
Definition setsPageSize (c : Setting) : bool :=
  match c with
  | SetPageSize _ => true
  | _ => false
  end.

(** A page size or key setting whose value passes its own validation;
    loader settings are not judged here. *)
Definition valueAccepted (c : Setting) : bool :=
  match c with
  | SetNextPageKey key => negb (String.eqb key "")
  | SetPageSize size => 0 <? size
  | SetNextPageLoader _ => true
  end.

(** The flag and its [sync.Once] guard tell the same story. *)
Definition onceAgrees (p : Pager) : bool :=
  Bool.eqb (done (isFirstPageLoadedOnce p)) (isFirstPageLoaded p).

Definition hasLoader (p : Pager) : bool :=
  match nextPageLoader p with
  | Some _ => true
  | None => false
  end.

(** The data invariant of a pager that [New] handed out. *)
Definition wellFormed (p : Pager) : bool :=
  (0 <? pageSize p) && hasLoader p && onceAgrees p.

Definition replyPage (r : LoadReply) : slice T := fst (fst r).
Definition replyKey (r : LoadReply) : string := snd (fst r).
Definition replyErr (r : LoadReply) : option error := snd r.

(** [n] successive [Load] calls on the loader alone, the first with [key]
    and each later one with the key its predecessor returned: every call
    with its reply, and the loader's state at the end. Nothing here looks
    at what the replies say beyond the key. *)
Fixpoint successive (ld : Loader) (ctx : Ctx) (size : Z) (n : nat)
    (key : string) (ls : LoaderState)
  : list (LoadCall * LoadReply) * LoaderState :=
  match n with
  | O => ([], ls)
  | S n' =>
      let (r, ls') := Load ld ctx key size ls in
      let (rest, ls'') := successive ld ctx size n' (replyKey r) ls' in
      (((key, size), r) :: rest, ls'')
  end.

(** A reply after which more pages are to come: no error, a key to go on. *)
Definition continues (cr : LoadCall * LoadReply) : bool :=
  match replyErr (snd cr) with
  | None => negb (String.eqb (replyKey (snd cr)) "")
  | Some _ => false
  end.

(** The key the next call is due with, after the calls of [trace]. *)
Definition keyAfter (key : string) (trace : list (LoadCall * LoadReply))
  : string :=
  fold_left (fun _ cr => replyKey (snd cr)) trace key.

(** The items of the replies of [trace], in the order of the calls. *)
Definition itemsOf (trace : list (LoadCall * LoadReply)) : list T :=
  List.concat (map (fun cr => elems (replyPage (snd cr))) trace).

(** The pager [p] once the calls of [trace] have all been taken in: the
    cursor has moved on and the first page counts as loaded. *)
Definition advanced (p : Pager) (trace : list (LoadCall * LoadReply))
  : Pager :=
  match trace with
  | [] => p
  | _ :: _ =>
      mkPager (pageSize p) (keyAfter (nextPageKey p) trace)
              (nextPageLoader p) true (mkOnce true)
  end.


(** Method calls a client may issue, and a run of them in sequence. *)
Inductive Call : Type :=
| CallNext (ctx : Ctx)
| CallAll (ctx : Ctx).

Definition isCallAll (c : Call) : bool :=
  match c with
  | CallAll _ => true
  | CallNext _ => false
  end.

Fixpoint runCalls (fuel : nat) (cs : list Call)
  : M (list (slice T * option error)) :=
  match cs with
  | [] => ret []
  | c :: rest =>
      r <- match c with
           | CallNext ctx => Next ctx
           | CallAll ctx => All fuel ctx
           end ;;
      rs <- runCalls fuel rest ;;
      ret (r :: rs)
  end.

(** A setting that passes its option's validation. *)
Definition settingValid (c : Setting) : bool :=
  match c with
  | SetNextPageLoader None => false
  | _ => valueAccepted c
  end.

(** The error the option of a setting returns when it rejects its value. *)
Definition settingError (c : Setting) : error :=
  match c with
  | SetNextPageKey _ => Errorf "next page key must not be empty"
  | SetPageSize _ => Errorf "page size must be positive"
  | SetNextPageLoader _ => Errorf "next page loader is required"
  end.

(** The last page size, key and loader a list of settings asks for, with
    what is there when none does. *)
Definition lastPageSize (cs : list Setting) (default : Z) : Z :=
  fold_left (fun acc c => match c with SetPageSize size => size | _ => acc end)
            cs default.

Definition lastNextPageKey (cs : list Setting) (default : string) : string :=
  fold_left (fun acc c => match c with SetNextPageKey key => key | _ => acc end)
            cs default.

Definition lastLoader (cs : list Setting) (default : option Loader)
  : option Loader :=
  fold_left (fun acc c =>
               match c with
               | SetNextPageLoader (Some ld) => Some ld
               | _ => acc
               end)
            cs default.

(** The error construction ends with when it fails on a list of settings:
    that of the first setting that is not valid, and the missing loader
    when all are. *)
Definition constructionError (cs : list Setting) : error :=
  match find (fun c => negb (settingValid c)) cs with
  | Some c => settingError c
  | None => Errorf "next page loader is required"
  end.

(** The slice and the error a method handed back, if it returned. *)
Definition returned {A : Type} (r : Run A) : option A :=
  match r with
  | Returns a _ => Some a
  | _ => None
  end.

(** The state a method left behind, by returning or by panicking. *)
Definition stateOf {A : Type} (r : Run A) : option State :=
  match r with
  | Returns _ s => Some s
  | Panics _ s => Some s
  | OutOfFuel => None
  end.

Definition isPanic {A : Type} (r : Run A) : bool :=
  match r with
  | Panics _ _ => true
  | _ => false
  end.

(** What every later state of a pager has in common with an earlier one:
    the configuration is the same, a first page once loaded stays loaded,
    and the log has only grown, by calls that ask for the configured
    page size. *)
Definition evolvesTo (s s' : State) : Prop :=
  pageSize (pager s') = pageSize (pager s) /\
  nextPageLoader (pager s') = nextPageLoader (pager s) /\
  (isFirstPageLoaded (pager s) = true ->
   isFirstPageLoaded (pager s') = true) /\
  exists calls : list LoadCall,
    loads s' = loads s ++ calls /\
    Forall (fun c => snd c = pageSize (pager s)) calls.

End Page.

Arguments Returns {T Ctx LoaderState A} a s.
Arguments Panics {T Ctx LoaderState A} msg s.
Arguments OutOfFuel {T Ctx LoaderState A}.

(** ** The platform of the examples *)

(** linux/amd64: the allocation limit is 2^48 bytes and an [int] takes 8,
    so [make] refuses every capacity above 2^45 for a slice of [int]. The
    examples run on a machine that grants all the others. *)
Definition maxAlloc : Z := 2 ^ 48.

#[global] Instance makesliceInt : Makeslice Z := {| maxCap := maxAlloc / 8 |}.

(** ** pager_test.go: the hand-written loader of the tests *)

(** A Go map read with [m[k]]: the zero value when the key is absent. *)
Fixpoint mapIndex {V : Type} (zero : V) (m : list (string * V)) (k : string)
  : V :=
  match m with
  | [] => zero
  | (k', v) :: rest => if String.eqb k' k then v else mapIndex zero rest k
  end.

Record fakeLoader : Type := mkFakeLoader {
  pageByKey : list (string * slice Z);
  nextPageKeyByPageKey : list (string * string);
  errOnPageKey : string
}.

Definition fakeLoader_Load (l : fakeLoader)
  : @Loader Z unit unit :=
  mkLoader
    (fun _ pageKey _ ls =>
       if String.eqb (errOnPageKey l) pageKey then
         ((None, "", Some (errorString "test error")), ls)
       else
         ((mapIndex None (pageByKey l) pageKey,
           mapIndex "" (nextPageKeyByPageKey l) pageKey, None), ls)).

(** The three pages of the tests, chained by the keys the documentation
    uses. *)
Definition threePages (errOn : string) : fakeLoader :=
  mkFakeLoader
    [("", Some [1; 2; 3]); ("second", Some [4; 5; 6]); ("third", Some [7; 8])]
    [("", "second"); ("second", "third"); ("third", "")]
    errOn.


(** A loader with nothing at all: one empty page and no further key. *)
Definition emptyLoader : @Loader Z unit unit :=
  mkLoader (fun _ _ _ ls => ((Some [], "", None), ls)).

(** The pager [New] builds from a page size and a loader. *)
Definition builtWith (size : Z) (ld : @Loader Z unit unit)
  : @Pager Z unit unit :=
  mkPager size "" (Some ld) false (mkOnce false).

Definition threePagesLoader (errOn : string) : @Loader Z unit unit :=
  fakeLoader_Load (threePages errOn).

(** The first two fetches of the three pages, asked for with page size 3. *)
Definition firstTwoFetches : list (LoadCall * @LoadReply Z) :=
  [(("", 3), (Some [1; 2; 3], "second", None));
   (("second", 3), (Some [4; 5; 6], "third", None))].

(** A pager whose pages have all been fetched. *)
Definition exhausted (size : Z) (ld : @Loader Z unit unit)
  : @Pager Z unit unit :=
  mkPager size "" (Some ld) true (mkOnce true).

(** The state once the three pages have been fetched with page size 3. *)
Definition threePagesDone : @State Z unit unit :=
  mkState (exhausted 3 (threePagesLoader "no-error")) tt
          [("", 3); ("second", 3); ("third", 3)].

(** The three pages after the first has been fetched. *)
Definition threePagesBegun : @State Z unit unit :=
  mkState (mkPager 3 "second" (Some (threePagesLoader "no-error"))
                   true (mkOnce true)) tt [("", 3)].

(** The zero value of the pager type, as [var p Pager] gives it. *)
Definition zeroValue : @Pager Z unit unit :=
  mkPager 0 "" None false (mkOnce false).

(** The state a client is in right after [New] returned [p]. *)
Definition fresh (p : @Pager Z unit unit) : @State Z unit unit :=
  mkState p tt [].

(** * Properties *)

Section PageFacts.

Context {T Ctx LoaderState : Type} {runtime : Makeslice T}.

Local Abbreviation Pager := (@Pager T Ctx LoaderState).
Local Abbreviation State := (@State T Ctx LoaderState).
Local Abbreviation Loader := (@Loader T Ctx LoaderState).
Local Abbreviation Setting := (@Setting T Ctx LoaderState).
Local Abbreviation LoadReply := (@LoadReply T).

(** ** Slices *)

Lemma append_non_nil (l : list T) (t : slice T) :
  append (Some l) t = Some (l ++ elems t).
Proof.
  unfold append. destruct (elems t) as [|x xs]; simpl.
  - now rewrite app_nil_r.
  - reflexivity.
Qed.

(** ** The completion test *)

Lemma IsAllLoaded_true (p : Pager) :
  IsAllLoaded p = true <->
  nextPageKey p = "" /\ isFirstPageLoaded p = true.
Proof.
  unfold IsAllLoaded. now rewrite andb_true_iff, String.eqb_eq.
Qed.

Lemma IsAllLoaded_after (size : Z) (k : string) (l : option Loader) (o : Once) :
  IsAllLoaded (mkPager size k l true o) = String.eqb k "".
Proof. unfold IsAllLoaded; simpl. apply andb_true_r. Qed.

(** ** What the library's own options leave alone *)

Lemma option_of_keeps_flag (c : Setting) (p : Pager) :
  isFirstPageLoaded (fst (option_of c p)) = isFirstPageLoaded p /\
  isFirstPageLoadedOnce (fst (option_of c p)) = isFirstPageLoadedOnce p.
Proof.
  destruct c as [key|size|[ld|]]; simpl;
    unfold WithNextPageKey, WithPageSize, WithNextPageLoader.
  - destruct (String.eqb key ""); auto.
  - destruct (size <=? 0); auto.
  - auto.
  - auto.
Qed.

Lemma applyOptions_keeps_flag (cs : list Setting) (p : Pager) :
  isFirstPageLoaded (fst (applyOptions (map option_of cs) p))
    = isFirstPageLoaded p /\
  isFirstPageLoadedOnce (fst (applyOptions (map option_of cs) p))
    = isFirstPageLoadedOnce p.
Proof.
  revert p. induction cs as [|c cs IH]; intro p; simpl; [auto|].
  destruct (option_of_keeps_flag c p) as [Hf Ho].
  destruct (option_of c p) as [p' [e|]]; simpl in *; [auto|].
  destruct (IH p') as [Hf' Ho']. split; congruence.
Qed.

Lemma New_some (opts : list Option) (p : Pager) (e : option error) :
  New opts = (Some p, e) ->
  applyOptions opts zeroPager = (p, None) /\ hasLoader p = true /\ e = None.
Proof.
  unfold New, hasLoader.
  destruct (applyOptions opts zeroPager) as [q [err|]]; [discriminate|].
  destruct (nextPageLoader q) eqn:Hl; [|discriminate].
  intro H; inversion H; subst. now rewrite Hl.
Qed.

(** ** One fetch *)

Lemma Next_when_loaded (ctx : Ctx) (s : State) :
  IsAllLoaded (pager s) = true -> Next ctx s = Returns (None, None) s.
Proof.
  intro H. unfold Next, bind, getPager. now rewrite H.
Qed.

Lemma Next_when_Load_fails (ctx : Ctx) (s : State) (ld : Loader)
    (page : slice T) (k : string) (e : error) (ls' : LoaderState) :
  IsAllLoaded (pager s) = false ->
  nextPageLoader (pager s) = Some ld ->
  Load ld ctx (nextPageKey (pager s)) (pageSize (pager s)) (loaderState s)
    = ((page, k, Some e), ls') ->
  Next ctx s
    = Returns (None, Some (Errorf_page (nextPageKey (pager s)) e))
        (mkState (pager s) ls'
           (loads s ++ [(nextPageKey (pager s), pageSize (pager s))])).
Proof.
  intros Hn Hl HL. unfold Next, bind, getPager, callLoad.
  now rewrite Hn, Hl, HL.
Qed.

Lemma Next_when_Load_succeeds (ctx : Ctx) (s : State) (ld : Loader)
    (page : slice T) (k : string) (ls' : LoaderState) :
  IsAllLoaded (pager s) = false ->
  nextPageLoader (pager s) = Some ld ->
  Load ld ctx (nextPageKey (pager s)) (pageSize (pager s)) (loaderState s)
    = ((page, k, None), ls') ->
  Next ctx s
    = Returns (page, None)
        (mkState
           (mkPager (pageSize (pager s)) k (Some ld)
              (if done (isFirstPageLoadedOnce (pager s))
               then isFirstPageLoaded (pager s) else true)
              (if done (isFirstPageLoadedOnce (pager s))
               then isFirstPageLoadedOnce (pager s) else mkOnce true))
           ls'
           (loads s ++ [(nextPageKey (pager s), pageSize (pager s))])).
Proof.
  intros Hn Hl HL.
  unfold Next, bind, getPager, callLoad, putPager, pageLoadedAtLeastOnceTime.
  rewrite Hn, Hl, HL. unfold bind, Do, getPager, putPager, ret. simpl.
  destruct (done (isFirstPageLoadedOnce (pager s))); simpl; now rewrite ?Hl.
Qed.

Lemma Next_when_nil_loader (ctx : Ctx) (s : State) :
  IsAllLoaded (pager s) = false ->
  nextPageLoader (pager s) = None ->
  Next ctx s = Panics nilDereference s.
Proof.
  intros Hn Hl. unfold Next, bind, getPager, callLoad. now rewrite Hn, Hl.
Qed.

(** ** The buffer of [All] *)

Lemma refused_false (cap : Z) :
  refused cap = false <-> 0 <= cap <= maxCap.
Proof.
  unfold refused. rewrite orb_false_iff, !Z.ltb_ge. tauto.
Qed.

Lemma refused_true (cap : Z) :
  refused cap = true <-> cap < 0 \/ maxCap < cap.
Proof.
  unfold refused. now rewrite orb_true_iff, !Z.ltb_lt.
Qed.

(** [All] is its loop on an empty buffer, if the buffer is granted. *)
Lemma All_unfold (fuel : nat) (ctx : Ctx) (s : State) :
  All fuel ctx s
  = if refused (pageSize (pager s)) then Panics makesliceCap s
    else allLoop fuel ctx (Some []) s.
Proof.
  unfold All, bind at 1, getPager at 1, bind at 1, make0.
  now destruct (refused (pageSize (pager s))).
Qed.

(** ** The loop *)

Lemma allLoop_when_loaded (fuel : nat) (ctx : Ctx) (acc : slice T)
    (s : State) :
  IsAllLoaded (pager s) = true ->
  allLoop fuel ctx acc s = Returns (acc, None) s.
Proof.
  intro H. destruct fuel; simpl; unfold bind, getPager; now rewrite H.
Qed.

Lemma allLoop_step_fails (fuel : nat) (ctx : Ctx) (acc : slice T)
    (s : State) (ld : Loader) (page : slice T) (k : string) (e : error)
    (ls' : LoaderState) :
  IsAllLoaded (pager s) = false ->
  nextPageLoader (pager s) = Some ld ->
  Load ld ctx (nextPageKey (pager s)) (pageSize (pager s)) (loaderState s)
    = ((page, k, Some e), ls') ->
  allLoop (S fuel) ctx acc s
    = Returns (acc, Some (Errorf_page (nextPageKey (pager s)) e))
        (mkState (pager s) ls'
           (loads s ++ [(nextPageKey (pager s), pageSize (pager s))])).
Proof.
  intros Hn Hl HL. simpl. unfold bind at 1. unfold getPager at 1.
  rewrite Hn. unfold bind.
  now rewrite (Next_when_Load_fails ctx s ld page k e ls' Hn Hl HL).
Qed.

Lemma allLoop_step_succeeds (fuel : nat) (ctx : Ctx) (acc : list T)
    (s : State) (ld : Loader) (page : slice T) (k : string)
    (ls' : LoaderState) :
  IsAllLoaded (pager s) = false ->
  onceAgrees (pager s) = true ->
  nextPageLoader (pager s) = Some ld ->
  Load ld ctx (nextPageKey (pager s)) (pageSize (pager s)) (loaderState s)
    = ((page, k, None), ls') ->
  allLoop (S fuel) ctx (Some acc) s
    = allLoop fuel ctx (Some (acc ++ elems page))
        (mkState (mkPager (pageSize (pager s)) k (Some ld) true (mkOnce true))
           ls'
           (loads s ++ [(nextPageKey (pager s), pageSize (pager s))])).
Proof.
  intros Hn Ho Hl HL. simpl. unfold bind at 1. unfold getPager at 1.
  rewrite Hn. unfold bind at 1.
  rewrite (Next_when_Load_succeeds ctx s ld page k ls' Hn Hl HL).
  rewrite append_non_nil.
  unfold onceAgrees in Ho. apply Bool.eqb_prop in Ho.
  destruct (isFirstPageLoadedOnce (pager s)) as [[|]]; simpl in *;
    now rewrite <- ?Ho.
Qed.

(** A run of fetches that all succeed with a further key is taken in one
    after the other, whatever follows. *)
Lemma allLoop_successive (ctx : Ctx) (ld : Loader) (size : Z) (n : nat) :
  forall (key : string) (ls : LoaderState) (trace : list (LoadCall * LoadReply))
         (ls1 : LoaderState) (b : bool) (o : Once) (log : list LoadCall)
         (acc : list T) (fuel : nat),
    successive ld ctx size n key ls = (trace, ls1) ->
    forallb continues trace = true ->
    IsAllLoaded (mkPager size key (Some ld) b o) = false ->
    onceAgrees (mkPager size key (Some ld) b o) = true ->
    allLoop (n + fuel) ctx (Some acc)
            (mkState (mkPager size key (Some ld) b o) ls log)
    = allLoop fuel ctx (Some (acc ++ itemsOf trace))
        (mkState (advanced (mkPager size key (Some ld) b o) trace) ls1
                 (log ++ map fst trace)).
Proof.
  induction n as [|n IH]; intros key ls trace ls1 b o log acc fuel HS HC Hn Ho.
  - simpl in HS. inversion HS; subst. simpl.
    now rewrite !app_nil_r.
  - simpl in HS.
    destruct (Load ld ctx key size ls) as [[[page k] err] ls'] eqn:HL.
    unfold replyKey in HS; simpl in HS.
    destruct (successive ld ctx size n k ls') as [rest ls''] eqn:HR.
    inversion HS; subst; clear HS.
    simpl in HC. apply andb_true_iff in HC. destruct HC as [Hc HC].
    unfold continues, replyErr, replyKey in Hc; simpl in Hc.
    destruct err as [e|]; [discriminate|].
    apply negb_true_iff in Hc.
    change (S n + fuel)%nat with (S (n + fuel)).
    pose proof (allLoop_step_succeeds (n + fuel) ctx acc
                  (mkState (mkPager size key (Some ld) b o) ls log)
                  ld page k ls' Hn Ho eq_refl HL) as Hstep.
    cbn [pager pageSize nextPageKey loaderState loads] in Hstep.
    rewrite Hstep; clear Hstep.
    rewrite (IH k ls' rest ls1 true (mkOnce true) _ _ fuel HR HC).
    + unfold itemsOf. simpl. rewrite <- !app_assoc. simpl.
      unfold replyPage; simpl.
      destruct rest as [|cr rest]; reflexivity.
    + now rewrite IsAllLoaded_after.
    + reflexivity.
Qed.

Lemma keyAfter_cons (key : string) (cr : LoadCall * LoadReply)
    (rest : list (LoadCall * LoadReply)) :
  keyAfter key (cr :: rest) = keyAfter (replyKey (snd cr)) rest.
Proof. reflexivity. Qed.

Lemma keyAfter_continues (trace : list (LoadCall * LoadReply)) :
  forall key : string,
    trace <> [] ->
    forallb continues trace = true ->
    String.eqb (keyAfter key trace) "" = false.
Proof.
  induction trace as [|cr rest IH]; intros key Hne HC; [congruence|].
  simpl in HC. apply andb_true_iff in HC. destruct HC as [Hc HC].
  rewrite keyAfter_cons. destruct rest as [|cr' rest'].
  - unfold continues in Hc. simpl.
    destruct (replyErr (snd cr)); [discriminate|].
    now apply negb_true_iff in Hc.
  - apply IH; [discriminate|exact HC].
Qed.

Lemma advanced_key (p : Pager) (trace : list (LoadCall * LoadReply)) :
  nextPageKey (advanced p trace) = keyAfter (nextPageKey p) trace.
Proof. destruct trace; reflexivity. Qed.

Lemma advanced_size (p : Pager) (trace : list (LoadCall * LoadReply)) :
  pageSize (advanced p trace) = pageSize p.
Proof. destruct trace; reflexivity. Qed.

Lemma advanced_loader (p : Pager) (trace : list (LoadCall * LoadReply)) :
  nextPageLoader (advanced p trace) = nextPageLoader p.
Proof. destruct trace; reflexivity. Qed.

Lemma advanced_onceAgrees (p : Pager) (trace : list (LoadCall * LoadReply)) :
  onceAgrees p = true -> onceAgrees (advanced p trace) = true.
Proof. destruct trace; auto. Qed.

Lemma advanced_not_loaded (p : Pager) (trace : list (LoadCall * LoadReply)) :
  IsAllLoaded p = false ->
  forallb continues trace = true ->
  IsAllLoaded (advanced p trace) = false.
Proof.
  intros Hn HC. destruct trace as [|cr rest]; [exact Hn|].
  unfold advanced. rewrite IsAllLoaded_after.
  apply keyAfter_continues; [discriminate|exact HC].
Qed.

Lemma wellFormed_parts (p : Pager) :
  wellFormed p = true ->
  0 < pageSize p /\ hasLoader p = true /\ onceAgrees p = true.
Proof.
  unfold wellFormed. rewrite !andb_true_iff, Z.ltb_lt. tauto.
Qed.

(** [All] takes in a run of fetches that all succeed with a further key,
    and goes on from there with what fuel is left. *)
Lemma All_runs (ctx : Ctx) (s : State) (ld : Loader) (n : nat)
    (trace : list (LoadCall * LoadReply)) (ls1 : LoaderState) (fuel : nat) :
  refused (pageSize (pager s)) = false ->
  onceAgrees (pager s) = true ->
  nextPageLoader (pager s) = Some ld ->
  IsAllLoaded (pager s) = false ->
  successive ld ctx (pageSize (pager s)) n (nextPageKey (pager s))
             (loaderState s) = (trace, ls1) ->
  forallb continues trace = true ->
  All (n + fuel) ctx s
  = allLoop fuel ctx (Some (itemsOf trace))
      (mkState (advanced (pager s) trace) ls1 (loads s ++ map fst trace)).
Proof.
  intros Hsz Ho Hl Hn HS HC.
  rewrite All_unfold, Hsz.
  destruct s as [[size key l b o] ls log]; simpl in *. subst l.
  exact (allLoop_successive ctx ld size n key ls trace ls1 b o log [] fuel
           HS HC Hn Ho).
Qed.

(** After such a run, what the next reply says decides how [All] goes on:
    an error ends it with what has been gathered, a success is taken in. *)
Lemma All_last_step (ctx : Ctx) (s : State) (ld : Loader) (n : nat)
    (trace : list (LoadCall * LoadReply)) (ls1 : LoaderState)
    (page : slice T) (k : string) (err : option error) (ls2 : LoaderState)
    (fuel : nat) :
  refused (pageSize (pager s)) = false ->
  onceAgrees (pager s) = true ->
  nextPageLoader (pager s) = Some ld ->
  IsAllLoaded (pager s) = false ->
  successive ld ctx (pageSize (pager s)) n (nextPageKey (pager s))
             (loaderState s) = (trace, ls1) ->
  forallb continues trace = true ->
  Load ld ctx (keyAfter (nextPageKey (pager s)) trace) (pageSize (pager s)) ls1
    = ((page, k, err), ls2) ->
  All (n + S fuel) ctx s
  = match err with
    | Some e =>
        Returns (Some (itemsOf trace),
                 Some (Errorf_page (keyAfter (nextPageKey (pager s)) trace) e))
          (mkState (advanced (pager s) trace) ls2
             (loads s ++ map fst trace
                ++ [(keyAfter (nextPageKey (pager s)) trace,
                     pageSize (pager s))]))
    | None =>
        allLoop fuel ctx (Some (itemsOf trace ++ elems page))
          (mkState (mkPager (pageSize (pager s)) k (Some ld) true (mkOnce true))
             ls2
             (loads s ++ map fst trace
                ++ [(keyAfter (nextPageKey (pager s)) trace,
                     pageSize (pager s))]))
    end.
Proof.
  intros Hsz Ho Hl Hn HS HC HL.
  rewrite (All_runs ctx s ld n trace ls1 (S fuel) Hsz Ho Hl Hn HS HC).
  set (s1 := mkState (advanced (pager s) trace) ls1 (loads s ++ map fst trace)).
  assert (Hn1 : IsAllLoaded (pager s1) = false)
    by (apply advanced_not_loaded; assumption).
  assert (Ho1 : onceAgrees (pager s1) = true)
    by (apply advanced_onceAgrees; assumption).
  assert (Hl1 : nextPageLoader (pager s1) = Some ld)
    by (unfold s1; simpl; now rewrite advanced_loader).
  assert (HL1 : Load ld ctx (nextPageKey (pager s1)) (pageSize (pager s1))
                  (loaderState s1) = ((page, k, err), ls2))
    by (unfold s1; simpl; now rewrite advanced_key, advanced_size).
  destruct err as [e|].
  - rewrite (allLoop_step_fails fuel ctx _ s1 ld page k e ls2 Hn1 Hl1 HL1).
    unfold s1; simpl. now rewrite advanced_key, advanced_size, <- app_assoc.
  - rewrite (allLoop_step_succeeds fuel ctx _ s1 ld page k ls2 Hn1 Ho1 Hl1 HL1).
    unfold s1; simpl. now rewrite advanced_key, advanced_size, <- app_assoc.
Qed.

Lemma All_when_loaded (fuel : nat) (ctx : Ctx) (s : State) :
  refused (pageSize (pager s)) = false ->
  IsAllLoaded (pager s) = true ->
  All fuel ctx s = Returns (Some [], None) s.
Proof.
  intros Hsz H. rewrite All_unfold, Hsz. now apply allLoop_when_loaded.
Qed.

Lemma All_when_refused (fuel : nat) (ctx : Ctx) (s : State) :
  refused (pageSize (pager s)) = true ->
  All fuel ctx s = Panics makesliceCap s.
Proof. intro H. now rewrite All_unfold, H. Qed.

(** On a fully loaded pager every call comes back empty handed and leaves
    the state alone, up to the first [All] whose buffer is refused. *)
Lemma runCalls_when_loaded (fuel : nat) (cs : list (@Call Ctx)) (s : State) :
  IsAllLoaded (pager s) = true ->
  runCalls fuel cs s
  = if refused (pageSize (pager s)) && existsb isCallAll cs
    then Panics makesliceCap s
    else Returns (map (fun c => if isCallAll c then (Some [], None)
                                else (None, None)) cs) s.
Proof.
  intro Hn. induction cs as [|c cs IH].
  - cbn. now rewrite andb_false_r.
  - cbn [runCalls existsb map]. unfold bind at 1.
    destruct c as [ctx|ctx]; cbn [isCallAll orb].
    + rewrite (Next_when_loaded ctx s Hn). unfold bind at 1. rewrite IH.
      now destruct (refused (pageSize (pager s)) && existsb isCallAll cs).
    + rewrite andb_true_r.
      destruct (refused (pageSize (pager s))) eqn:Hr.
      * now rewrite (All_when_refused fuel ctx s Hr).
      * rewrite (All_when_loaded fuel ctx s Hr Hn). unfold bind at 1.
        rewrite IH. reflexivity.
Qed.


(** ** Construction *)

Lemma applyOptions_app (before after : list Option) (p p' : Pager) :
  applyOptions before p = (p', None) ->
  applyOptions (before ++ after) p = applyOptions after p'.
Proof.
  revert p. induction before as [|opt before IH]; intros p H; simpl in *.
  - now inversion H.
  - destruct (opt p) as [q [e|]]; [discriminate|]. now apply IH.
Qed.

Lemma applyOptions_first_failure (before : list Option) (opt : Option)
    (after : list Option) (p0 p p' : Pager) (e : error) :
  applyOptions before p0 = (p, None) ->
  opt p = (p', Some e) ->
  applyOptions (before ++ opt :: after) p0 = (p', Some e).
Proof.
  intros Hb Ho. rewrite (applyOptions_app before (opt :: after) p0 p Hb).
  simpl. now rewrite Ho.
Qed.

(** Settings none of which hands over a loader leave the pager without
    one, and the only error they can end with, when every page size and key
    among them is acceptable, is the one about the loader. *)
Lemma applyOptions_without_loader (cs : list Setting) :
  forall p : Pager,
    existsb suppliesLoader cs = false ->
    nextPageLoader p = None ->
    nextPageLoader (fst (applyOptions (map option_of cs) p)) = None /\
    (forallb valueAccepted cs = true ->
     snd (applyOptions (map option_of cs) p) = None \/
     snd (applyOptions (map option_of cs) p)
       = Some (Errorf "next page loader is required")).
Proof.
  induction cs as [|c cs IH]; intros p Hno Hl; simpl.
  - auto.
  - simpl in Hno. apply orb_false_iff in Hno. destruct Hno as [Hc Hno].
    destruct c as [key|size|[ld|]]; simpl in *;
      unfold WithNextPageKey, WithPageSize, WithNextPageLoader.
    + destruct (String.eqb key "") eqn:E; simpl.
      * split; [exact Hl|]. intro H. discriminate.
      * destruct (IH (mkPager (pageSize p) key (nextPageLoader p)
                        (isFirstPageLoaded p) (isFirstPageLoadedOnce p))
                    Hno Hl) as [H1 H2].
        split; [exact H1|]. intro H. apply H2. exact H.
    + destruct (size <=? 0) eqn:E; simpl.
      * split; [exact Hl|]. intro H. apply andb_true_iff in H.
        destruct H as [H _]. apply Z.ltb_lt in H. apply Z.leb_le in E. lia.
      * destruct (IH (mkPager size (nextPageKey p) (nextPageLoader p)
                        (isFirstPageLoaded p) (isFirstPageLoadedOnce p))
                    Hno Hl) as [H1 H2].
        split; [exact H1|]. intro H. apply andb_true_iff in H.
        apply H2. tauto.
    + discriminate.
    + split; [exact Hl|]. intro H. now right.
Qed.

Lemma applyOptions_keeps_default_size (cs : list Setting) :
  forall p : Pager,
    existsb setsPageSize cs = false ->
    pageSize (fst (applyOptions (map option_of cs) p)) = pageSize p.
Proof.
  induction cs as [|c cs IH]; intros p Hno; simpl; [reflexivity|].
  simpl in Hno. apply orb_false_iff in Hno. destruct Hno as [Hc Hno].
  destruct c as [key|size|[ld|]]; simpl in *;
    unfold WithNextPageKey, WithNextPageLoader; try discriminate.
  - destruct (String.eqb key ""); simpl; [reflexivity|].
    now rewrite IH.
  - now rewrite IH.
  - reflexivity.
Qed.


(** ** The invariant is established by [New] and kept by the methods *)

Lemma option_of_keeps_size_positive (c : Setting) (p : Pager) :
  0 < pageSize p -> 0 < pageSize (fst (option_of c p)).
Proof.
  intro H. destruct c as [key|size|[ld|]]; simpl;
    unfold WithNextPageKey, WithPageSize, WithNextPageLoader.
  - destruct (String.eqb key ""); exact H.
  - destruct (size <=? 0) eqn:E; simpl; [exact H|].
    apply Z.leb_gt in E. exact E.
  - exact H.
  - exact H.
Qed.

Lemma applyOptions_keeps_size_positive (cs : list Setting) :
  forall p : Pager,
    0 < pageSize p -> 0 < pageSize (fst (applyOptions (map option_of cs) p)).
Proof.
  induction cs as [|c cs IH]; intros p H; simpl; [exact H|].
  pose proof (option_of_keeps_size_positive c p H) as H'.
  destruct (option_of c p) as [p' [e|]]; simpl in *; [exact H'|].
  now apply IH.
Qed.

Lemma New_wellFormed (cs : list Setting) (p : Pager) :
  New (map option_of cs) = (Some p, None) -> wellFormed p = true.
Proof.
  intro H. apply New_some in H. destruct H as [Ha [Hl _]].
  pose proof (applyOptions_keeps_size_positive cs zeroPager) as Hs.
  destruct (applyOptions_keeps_flag cs zeroPager) as [Hf Ho].
  rewrite Ha in Hs, Hf, Ho. simpl in Hs, Hf, Ho.
  unfold wellFormed, onceAgrees. rewrite Hl, Hf, Ho. simpl.
  rewrite !andb_true_r. apply Z.ltb_lt. apply Hs. reflexivity.
Qed.

Lemma Next_keeps_wellFormed (ctx : Ctx) (s s' : State)
    (r : slice T * option error) :
  wellFormed (pager s) = true ->
  Next ctx s = Returns r s' ->
  wellFormed (pager s') = true.
Proof.
  intros Hw HN. destruct (IsAllLoaded (pager s)) eqn:Hn.
  - rewrite (Next_when_loaded ctx s Hn) in HN. inversion HN; subst. exact Hw.
  - destruct (wellFormed_parts _ Hw) as [Hs [Hl Ho]].
    unfold hasLoader in Hl.
    destruct (nextPageLoader (pager s)) as [ld|] eqn:El; [|discriminate].
    destruct (Load ld ctx (nextPageKey (pager s)) (pageSize (pager s))
                (loaderState s)) as [[[page k] [e|]] ls'] eqn:HL.
    + rewrite (Next_when_Load_fails ctx s ld page k e ls' Hn El HL) in HN.
      inversion HN; subst. exact Hw.
    + rewrite (Next_when_Load_succeeds ctx s ld page k ls' Hn El HL) in HN.
      inversion HN; subst. simpl.
      unfold wellFormed, hasLoader, onceAgrees; simpl.
      apply Z.ltb_lt in Hs. rewrite Hs. simpl.
      unfold onceAgrees in Ho.
      destruct (isFirstPageLoadedOnce (pager s)) as [[|]]; simpl in *;
        [exact Ho|reflexivity].
Qed.

Lemma allLoop_keeps_wellFormed (ctx : Ctx) (fuel : nat) :
  forall (acc : slice T) (s s' : State) (r : slice T * option error),
    wellFormed (pager s) = true ->
    allLoop fuel ctx acc s = Returns r s' ->
    wellFormed (pager s') = true.
Proof.
  induction fuel as [|fuel IH]; intros acc s s' r Hw HA;
    simpl in HA; unfold bind at 1, getPager at 1 in HA;
    destruct (IsAllLoaded (pager s)) eqn:Hn.
  - inversion HA; subst. exact Hw.
  - discriminate.
  - inversion HA; subst. exact Hw.
  - unfold bind in HA.
    destruct (Next ctx s) as [[page err] s1| |] eqn:HN; try discriminate.
    pose proof (Next_keeps_wellFormed ctx s s1 _ Hw HN) as Hw1.
    destruct err as [e|].
    + inversion HA; subst. exact Hw1.
    + exact (IH _ _ _ _ Hw1 HA).
Qed.

Lemma All_keeps_wellFormed (ctx : Ctx) (fuel : nat) (s s' : State)
    (r : slice T * option error) :
  wellFormed (pager s) = true ->
  All fuel ctx s = Returns r s' ->
  wellFormed (pager s') = true.
Proof.
  intros Hw HA. rewrite All_unfold in HA.
  destruct (refused (pageSize (pager s))); [discriminate|].
  exact (allLoop_keeps_wellFormed ctx fuel _ _ _ _ Hw HA).
Qed.

End PageFacts.

(** * The documented behaviour, statement by statement *)

Section PageSpec.

Context {T Ctx LoaderState : Type} {runtime : Makeslice T}.

Local Abbreviation Pager := (@Pager T Ctx LoaderState).
Local Abbreviation State := (@State T Ctx LoaderState).
Local Abbreviation Loader := (@Loader T Ctx LoaderState).
Local Abbreviation Setting := (@Setting T Ctx LoaderState).
Local Abbreviation LoadReply := (@LoadReply T).

(** C1. [IsAllLoaded] is true exactly when the next page key is empty and
    the first page has been loaded. A pager that [New] has just built from
    the package's options is never fully loaded, and that includes the
    pager built with defaults, whose key is the empty string. *)
Theorem IsAllLoaded_iff_empty_key_after_a_fetch :
  (forall p : Pager,
      IsAllLoaded p = true <->
      nextPageKey p = "" /\ isFirstPageLoaded p = true) /\
  (forall (cs : list Setting) (p : Pager),
      New (map option_of cs) = (Some p, None) ->
      isFirstPageLoaded p = false /\ IsAllLoaded p = false) /\
  (forall ld : Loader,
      exists p : Pager,
        New [WithNextPageLoader (Some ld)] = (Some p, None) /\
        nextPageKey p = "" /\ IsAllLoaded p = false).
Proof.
  split; [|split].
  - exact IsAllLoaded_true.
  - intros cs p H. apply New_some in H. destruct H as [Ha _].
    destruct (applyOptions_keeps_flag cs zeroPager) as [Hf _].
    rewrite Ha in Hf. simpl in Hf.
    split; [exact Hf|]. unfold IsAllLoaded. rewrite Hf. apply andb_false_r.
  - intro ld. eexists. repeat split.
Qed.

(** C3. When the pager is not fully loaded and the loader fails, [Next]
    returns no items and an error whose message is "page <key>: <cause>",
    <key> being the key the attempt was made with, and which wraps the
    cause. The pager is left exactly as it was, so the next [Next] asks the
    loader for the same key again. *)
Theorem Next_failure_wraps_and_keeps_state
    (ctx : Ctx) (s : State) (ld : Loader) (page : slice T) (k : string)
    (e : error) (ls' : LoaderState) :
  IsAllLoaded (pager s) = false ->
  nextPageLoader (pager s) = Some ld ->
  Load ld ctx (nextPageKey (pager s)) (pageSize (pager s)) (loaderState s)
    = ((page, k, Some e), ls') ->
  exists (err : error) (s' : State),
    Next ctx s = Returns (None, Some err) s' /\
    Error err = ("page " ++ nextPageKey (pager s) ++ ": " ++ Error e)%string /\
    Unwrap err = Some e /\
    pager s' = pager s /\
    loaderState s' = ls' /\
    loads s' = loads s ++ [(nextPageKey (pager s), pageSize (pager s))] /\
    (forall (ctx' : Ctx) (r : slice T * option error) (s'' : State),
        Next ctx' s' = Returns r s'' ->
        loads s'' = loads s' ++ [(nextPageKey (pager s), pageSize (pager s))]).
Proof.
  intros Hn Hl HL.
  exists (Errorf_page (nextPageKey (pager s)) e).
  eexists. split; [exact (Next_when_Load_fails ctx s ld page k e ls' Hn Hl HL)|].
  simpl. repeat split.
  intros ctx' r s'' HN.
  set (s1 := mkState (pager s) ls'
               (loads s ++ [(nextPageKey (pager s), pageSize (pager s))])) in *.
  destruct (Load ld ctx' (nextPageKey (pager s)) (pageSize (pager s)) ls')
    as [[[page2 k2] [e2|]] ls2] eqn:HL2.
  - rewrite (Next_when_Load_fails ctx' s1 ld page2 k2 e2 ls2 Hn Hl HL2) in HN.
    inversion HN; subst. reflexivity.
  - rewrite (Next_when_Load_succeeds ctx' s1 ld page2 k2 ls2 Hn Hl HL2) in HN.
    inversion HN; subst. reflexivity.
Qed.

(** C4. When the pager is not fully loaded and the loader succeeds with
    items [page] and next key [k], [Next] returns [page] and no error,
    stores [k] as the next page key, empty or not, and the first page counts
    as loaded from then on, whether it did before or not. Afterwards the
    pager is fully loaded exactly when [k] is empty, whatever [page] holds:
    an empty page with a further key does not end pagination, an empty key
    on the very first call does. *)
Theorem Next_success_stores_key_and_marks_loaded
    (ctx : Ctx) (s : State) (ld : Loader) (page : slice T) (k : string)
    (ls' : LoaderState) :
  IsAllLoaded (pager s) = false ->
  onceAgrees (pager s) = true ->
  nextPageLoader (pager s) = Some ld ->
  Load ld ctx (nextPageKey (pager s)) (pageSize (pager s)) (loaderState s)
    = ((page, k, None), ls') ->
  exists s' : State,
    Next ctx s = Returns (page, None) s' /\
    nextPageKey (pager s') = k /\
    isFirstPageLoaded (pager s') = true /\
    pageSize (pager s') = pageSize (pager s) /\
    nextPageLoader (pager s') = nextPageLoader (pager s) /\
    onceAgrees (pager s') = true /\
    loaderState s' = ls' /\
    loads s' = loads s ++ [(nextPageKey (pager s), pageSize (pager s))] /\
    IsAllLoaded (pager s') = String.eqb k "".
Proof.
  intros Hn Ho Hl HL.
  eexists. split; [exact (Next_when_Load_succeeds ctx s ld page k ls' Hn Hl HL)|].
  unfold onceAgrees in Ho. apply Bool.eqb_prop in Ho.
  cbn [pager loaderState loads nextPageKey pageSize nextPageLoader
       isFirstPageLoaded isFirstPageLoadedOnce].
  assert (Hf : (if done (isFirstPageLoadedOnce (pager s))
                then isFirstPageLoaded (pager s) else true) = true)
    by (rewrite <- Ho; now destruct (done (isFirstPageLoadedOnce (pager s)))).
  rewrite Hf. repeat split; auto.
  - unfold onceAgrees; simpl.
    now destruct (isFirstPageLoadedOnce (pager s)) as [[|]].
  - apply IsAllLoaded_after.
Qed.

(** C5. On a fully loaded pager [Next] returns the nil page and no error
    and leaves everything as it is: the pager, the loader's state and the
    log of loader calls. Calling it again therefore changes nothing
    either. *)
Theorem Next_on_loaded_pager_is_a_no_op (ctx : Ctx) (s : State) :
  IsAllLoaded (pager s) = true ->
  Next ctx s = Returns (None, None) s /\
  (forall ctx' : Ctx,
      bind (Next ctx) (fun _ => Next ctx') s = Returns (None, None) s).
Proof.
  intro H. split; [exact (Next_when_loaded ctx s H)|].
  intro ctx'. unfold bind. rewrite (Next_when_loaded ctx s H).
  exact (Next_when_loaded ctx' s H).
Qed.

(** X14. Let the pager have a page size for which [make] grants a buffer,
    and let the loader, asked by this pager while it is not fully loaded,
    succeed [n] times with a further key and then once more with the empty
    key. Then [All], given room for these [n + 1] fetches, returns no error and
    the items of all the pages, concatenated in the order they were fetched;
    it asked the loader for exactly these pages, and leaves the pager fully
    loaded. *)
Theorem All_returns_the_pages_in_fetch_order
    (ctx : Ctx) (s : State) (ld : Loader) (n : nat)
    (trace : list (LoadCall * LoadReply)) (ls1 : LoaderState)
    (page : slice T) (ls2 : LoaderState) (fuel : nat) :
  wellFormed (pager s) = true ->
  pageSize (pager s) <= maxCap ->
  nextPageLoader (pager s) = Some ld ->
  IsAllLoaded (pager s) = false ->
  successive ld ctx (pageSize (pager s)) n (nextPageKey (pager s))
             (loaderState s) = (trace, ls1) ->
  forallb continues trace = true ->
  Load ld ctx (keyAfter (nextPageKey (pager s)) trace) (pageSize (pager s)) ls1
    = ((page, "", None), ls2) ->
  (n < fuel)%nat ->
  All fuel ctx s
  = Returns (Some (itemsOf trace ++ elems page), None)
      (mkState (mkPager (pageSize (pager s)) "" (Some ld) true (mkOnce true))
         ls2
         (loads s ++ map fst trace
            ++ [(keyAfter (nextPageKey (pager s)) trace, pageSize (pager s))])).
Proof.
  intros Hw Hcap Hl Hn HS HC HL Hlt.
  destruct (wellFormed_parts _ Hw) as [Hpos [_ Ho]].
  assert (Hsz : refused (pageSize (pager s)) = false)
    by (apply refused_false; lia).
  replace fuel with (n + S (fuel - S n))%nat by lia.
  rewrite (All_last_step ctx s ld n trace ls1 page "" None ls2 (fuel - S n));
    try assumption.
  now apply allLoop_when_loaded.
Qed.

(** X15. Let the pager have a page size for which [make] grants a buffer,
    and let the loader, asked by this pager while it is not fully loaded,
    succeed [n] times with a further key and then fail. Then [All], given room for
    these [n + 1] fetches, returns the items of the [n] pages fetched, in
    order, together with the error of [Next] for the failed key. The log of
    loader calls ends with the failed one: nothing is asked again. The
    pager stays where the failure left it. *)
Theorem All_stops_at_the_first_failure
    (ctx : Ctx) (s : State) (ld : Loader) (n : nat)
    (trace : list (LoadCall * LoadReply)) (ls1 : LoaderState)
    (page : slice T) (k : string) (e : error) (ls2 : LoaderState)
    (fuel : nat) :
  wellFormed (pager s) = true ->
  pageSize (pager s) <= maxCap ->
  nextPageLoader (pager s) = Some ld ->
  IsAllLoaded (pager s) = false ->
  successive ld ctx (pageSize (pager s)) n (nextPageKey (pager s))
             (loaderState s) = (trace, ls1) ->
  forallb continues trace = true ->
  Load ld ctx (keyAfter (nextPageKey (pager s)) trace) (pageSize (pager s)) ls1
    = ((page, k, Some e), ls2) ->
  (n < fuel)%nat ->
  All fuel ctx s
  = Returns (Some (itemsOf trace),
             Some (Errorf_page (keyAfter (nextPageKey (pager s)) trace) e))
      (mkState (advanced (pager s) trace) ls2
         (loads s ++ map fst trace
            ++ [(keyAfter (nextPageKey (pager s)) trace, pageSize (pager s))])).
Proof.
  intros Hw Hcap Hl Hn HS HC HL Hlt.
  destruct (wellFormed_parts _ Hw) as [Hpos [_ Ho]].
  assert (Hsz : refused (pageSize (pager s)) = false)
    by (apply refused_false; lia).
  replace fuel with (n + S (fuel - S n))%nat by lia.
  rewrite (All_last_step ctx s ld n trace ls1 page k (Some e) ls2
             (fuel - S n)); try assumption. reflexivity.
Qed.

(** C7, as the code has it. [New] applies the options in order, each to the
    pager its predecessors left. The first option that fails ends
    construction with its own error and no pager; a pager is only ever
    returned without an error and with a loader. When all options pass and
    no loader is set, the error is "next page loader is required". For the
    package's own options: if none of them hands over a non-nil loader,
    construction fails, and it fails with "next page loader is required"
    provided every page size and key supplied is acceptable (otherwise the
    first failing option's error comes first). *)
Theorem New_applies_options_in_order_and_requires_a_loader :
  (forall (before after : list Option) (p : Pager),
      applyOptions before zeroPager = (p, None) ->
      applyOptions (before ++ after) zeroPager = applyOptions after p) /\
  (forall (before : list Option) (opt : Option) (after : list Option)
          (p p' : Pager) (e : error),
      applyOptions before zeroPager = (p, None) ->
      opt p = (p', Some e) ->
      New (before ++ opt :: after) = (None, Some e)) /\
  (forall (opts : list Option) (p : Pager) (e : option error),
      New opts = (Some p, e) -> e = None /\ hasLoader p = true) /\
  (forall (opts : list Option) (p : Pager),
      applyOptions opts zeroPager = (p, None) ->
      nextPageLoader p = None ->
      New opts = (None, Some (Errorf "next page loader is required"))) /\
  (forall cs : list Setting,
      existsb suppliesLoader cs = false ->
      fst (New (map option_of cs)) = None /\
      snd (New (map option_of cs)) <> None /\
      (forallb valueAccepted cs = true ->
       New (map option_of cs)
         = (None, Some (Errorf "next page loader is required")))).
Proof.
  repeat split.
  - intros before after p H. now apply applyOptions_app.
  - intros before opt after p p' e Hb Ho. unfold New.
    now rewrite (applyOptions_first_failure before opt after zeroPager p p' e
                   Hb Ho).
  - apply New_some in H. tauto.
  - apply New_some in H. tauto.
  - intros opts p Ha Hl. unfold New. now rewrite Ha, Hl.
  - destruct (applyOptions_without_loader cs zeroPager H eq_refl) as [Hl _].
    unfold New.
    destruct (applyOptions (map option_of cs) zeroPager) as [q [e|]];
      simpl in *; [reflexivity|]. now rewrite Hl.
  - destruct (applyOptions_without_loader cs zeroPager H eq_refl) as [Hl _].
    unfold New.
    destruct (applyOptions (map option_of cs) zeroPager) as [q [e|]];
      simpl in *; [discriminate|]. rewrite Hl. discriminate.
  - intro Hv.
    destruct (applyOptions_without_loader cs zeroPager H eq_refl) as [Hl He].
    specialize (He Hv). unfold New.
    destruct (applyOptions (map option_of cs) zeroPager) as [q [e|]];
      simpl in *.
    + destruct He as [He|He]; [discriminate|]. now inversion He.
    + now rewrite Hl.
Qed.

(** C8. The page size option fails, with "page size must be positive",
    exactly when the size is at most 0, and then leaves the pager alone;
    any size from 1 up is accepted and stored. The key option fails, with
    "next page key must not be empty", exactly when the key is the empty
    string; any other key is accepted and stored. Construction inherits
    both verdicts, and a pager built without a page size option has page
    size 100. *)
Theorem option_validation :
  (forall (size : Z) (p : Pager),
      (snd (WithPageSize size p)
         = Some (Errorf "page size must be positive") <-> size <= 0) /\
      (snd (WithPageSize size p) = None <-> 1 <= size) /\
      (size <= 0 -> fst (WithPageSize size p) = p) /\
      (1 <= size -> pageSize (fst (WithPageSize size p)) = size)) /\
  (forall (key : string) (p : Pager),
      (snd (WithNextPageKey key p)
         = Some (Errorf "next page key must not be empty") <-> key = "") /\
      (snd (WithNextPageKey key p) = None <-> key <> "") /\
      (key = "" -> fst (WithNextPageKey key p) = p) /\
      (key <> "" -> nextPageKey (fst (WithNextPageKey key p)) = key)) /\
  (forall (ld : Loader) (size : Z),
      (size <= 0 ->
       New [WithNextPageLoader (Some ld); WithPageSize size]
         = (None, Some (Errorf "page size must be positive"))) /\
      (1 <= size ->
       New [WithNextPageLoader (Some ld); WithPageSize size]
         = (Some (mkPager size "" (Some ld) false (mkOnce false)), None))) /\
  (forall (ld : Loader) (key : string),
      (key = "" ->
       New [WithNextPageLoader (Some ld); WithNextPageKey key]
         = (None, Some (Errorf "next page key must not be empty"))) /\
      (key <> "" ->
       New [WithNextPageLoader (Some ld); WithNextPageKey key]
         = (Some (mkPager 100 key (Some ld) false (mkOnce false)), None))) /\
  (forall (cs : list Setting) (p : Pager),
      existsb setsPageSize cs = false ->
      New (map option_of cs) = (Some p, None) ->
      pageSize p = 100).
Proof.
  split; [|split; [|split; [|split]]].
  - intros size p. unfold WithPageSize.
    destruct (size <=? 0) eqn:E; simpl;
      [apply Z.leb_le in E | apply Z.leb_gt in E];
      repeat split; intros; try reflexivity; try discriminate; lia.
  - intros key p. unfold WithNextPageKey.
    destruct (String.eqb key "") eqn:E; simpl;
      [apply String.eqb_eq in E | apply String.eqb_neq in E];
      repeat split; intros; try reflexivity; try discriminate;
        try congruence.
  - intros ld size. unfold New; simpl. unfold WithPageSize.
    destruct (size <=? 0) eqn:E; simpl;
      [apply Z.leb_le in E | apply Z.leb_gt in E];
      split; intros; try reflexivity; lia.
  - intros ld key. unfold New; simpl. unfold WithNextPageKey.
    destruct (String.eqb key "") eqn:E; simpl;
      [apply String.eqb_eq in E | apply String.eqb_neq in E];
      split; intros; try reflexivity; congruence.
  - intros cs p Hno H. apply New_some in H. destruct H as [Ha _].
    pose proof (applyOptions_keeps_default_size cs zeroPager Hno) as Hs.
    rewrite Ha in Hs. exact Hs.
Qed.


(** C10. Once a pager is fully loaded it stays so. Whatever sequence of
    [Next] and [All] calls follows, it ends, by returning or in a panic, in
    the very state it began in: the pager is still fully loaded, its flag
    still set, its key still empty, and neither the loader's state nor the
    log of loader calls has changed. Every call returns no items and no
    error, unless the sequence calls [All] on a pager whose page size
    [make] refuses a buffer for, which is the only way it can panic. *)
Theorem fully_loaded_is_absorbing
    (fuel : nat) (cs : list (@Call Ctx)) (s : State) :
  IsAllLoaded (pager s) = true ->
  stateOf (runCalls fuel cs s) = Some s /\
  (forall s' : State,
      stateOf (runCalls fuel cs s) = Some s' ->
      IsAllLoaded (pager s') = true /\
      isFirstPageLoaded (pager s') = true /\
      nextPageKey (pager s') = "" /\
      loaderState s' = loaderState s /\
      loads s' = loads s) /\
  (0 <= pageSize (pager s) <= maxCap \/ existsb isCallAll cs = false ->
   exists rs : list (slice T * option error),
     runCalls fuel cs s = Returns rs s /\
     List.length rs = List.length cs /\
     Forall (fun r => elems (fst r) = [] /\ snd r = None) rs) /\
  (forall (msg : string) (s' : State),
      runCalls fuel cs s = Panics msg s' ->
      msg = makesliceCap /\
      (pageSize (pager s) < 0 \/ maxCap < pageSize (pager s)) /\
      existsb isCallAll cs = true).
Proof.
  intro Hn. pose proof (runCalls_when_loaded fuel cs s Hn) as HR.
  destruct (proj1 (IsAllLoaded_true (pager s)) Hn) as [Hk Hf].
  assert (Hst : stateOf (runCalls fuel cs s) = Some s)
    by (rewrite HR;
        now destruct (refused (pageSize (pager s)) && existsb isCallAll cs)).
  split; [exact Hst|]. split; [|split].
  - intros s' Hs'. rewrite Hst in Hs'. inversion Hs'; subst. auto.
  - intro Hok.
    assert (Hb : refused (pageSize (pager s)) && existsb isCallAll cs = false).
    { destruct Hok as [Hcap|Hno].
      - apply refused_false in Hcap. now rewrite Hcap.
      - rewrite Hno. apply andb_false_r. }
    rewrite Hb in HR. eexists. split; [exact HR|].
    split; [apply length_map|].
    apply Forall_map. apply Forall_forall. intros c _.
    now destruct (isCallAll c).
  - intros msg s' Hp. rewrite HR in Hp.
    destruct (refused (pageSize (pager s))) eqn:Hr;
      destruct (existsb isCallAll cs) eqn:He; simpl in Hp; try discriminate.
    inversion Hp; subst. split; [reflexivity|].
    split; [now apply refused_true|reflexivity].
Qed.

End PageSpec.

(** * The tests of the package, and instances of the statements above *)

(** TestPager_All, "get 3 pages". *)
Example test_All_three_pages :
  New [WithPageSize 3; WithNextPageLoader (Some (threePagesLoader "no-error"))]
    = (Some (builtWith 3 (threePagesLoader "no-error")), None) /\
  All 3 tt (fresh (builtWith 3 (threePagesLoader "no-error")))
    = Returns (Some [1; 2; 3; 4; 5; 6; 7; 8], None)
        (mkState (exhausted 3 (threePagesLoader "no-error")) tt
           [("", 3); ("second", 3); ("third", 3)]).
Proof. split; reflexivity. Qed.

(** TestPager_All, "nothing to load". *)
Example test_All_nothing_to_load :
  All 1 tt (fresh (builtWith 100 emptyLoader))
    = Returns (Some [], None)
        (mkState (exhausted 100 emptyLoader) tt [("", 100)]).
Proof. reflexivity. Qed.

(** A zero valued pager has no loader to call. *)
Example Next_on_zero_value_panics :
  Next tt (mkState (mkPager 0 "" (@None (@Loader Z unit unit)) false
                            (mkOnce false)) tt [])
    = Panics nilDereference
        (mkState (mkPager 0 "" (@None (@Loader Z unit unit)) false
                          (mkOnce false)) tt []).
Proof. reflexivity. Qed.

Lemma IsAllLoaded_iff_empty_key_after_a_fetch_witness :
  New (map option_of [SetNextPageLoader (Some emptyLoader)])
    = (Some (builtWith 100 emptyLoader), None) /\
  nextPageKey (builtWith 100 emptyLoader) = "" /\
  IsAllLoaded (builtWith 100 emptyLoader) = false.
Proof.
  split; [reflexivity|]. split; [reflexivity|].
  destruct (@IsAllLoaded_iff_empty_key_after_a_fetch Z unit unit)
    as (_ & Hnew & _).
  apply (Hnew [SetNextPageLoader (Some emptyLoader)]
              (builtWith 100 emptyLoader)).
  reflexivity.
Defined.

Lemma All_returns_the_pages_in_fetch_order_witness :
  All 3 tt (fresh (builtWith 3 (threePagesLoader "no-error")))
  = Returns (Some [1; 2; 3; 4; 5; 6; 7; 8], None)
      (mkState (exhausted 3 (threePagesLoader "no-error")) tt
         [("", 3); ("second", 3); ("third", 3)]).
Proof.
  refine (All_returns_the_pages_in_fetch_order tt
            (fresh (builtWith 3 (threePagesLoader "no-error")))
            (threePagesLoader "no-error") 2 firstTwoFetches tt
            (Some [7; 8]) tt 3 _ _ _ _ _ _ _ _);
    [reflexivity | vm_compute; discriminate | reflexivity | reflexivity
    | reflexivity | reflexivity | reflexivity | lia].
Defined.

Lemma Next_failure_wraps_and_keeps_state_witness :
  exists (err : error) (s' : @State Z unit unit),
    Next tt (mkState (mkPager 3 "third" (Some (threePagesLoader "third"))
                              true (mkOnce true)) tt [])
      = Returns (None, Some err) s' /\
    Error err = "page third: test error" /\
    Unwrap err = Some (errorString "test error") /\
    pager s' = mkPager 3 "third" (Some (threePagesLoader "third"))
                       true (mkOnce true) /\
    loads s' = [("third", 3)].
Proof.
  destruct (Next_failure_wraps_and_keeps_state tt
              (mkState (mkPager 3 "third" (Some (threePagesLoader "third"))
                                true (mkOnce true)) tt [])
              (threePagesLoader "third") None "" (errorString "test error") tt)
    as (err & s' & HN & HE & HU & HP & _ & HL & _);
    [reflexivity | reflexivity | reflexivity |].
  exists err, s'. repeat split; assumption.
Defined.

Lemma Next_success_stores_key_and_marks_loaded_witness :
  exists s' : @State Z unit unit,
    Next tt (fresh (builtWith 100 emptyLoader)) = Returns (Some [], None) s' /\
    nextPageKey (pager s') = "" /\
    isFirstPageLoaded (pager s') = true /\
    IsAllLoaded (pager s') = true.
Proof.
  destruct (Next_success_stores_key_and_marks_loaded tt
              (fresh (builtWith 100 emptyLoader)) emptyLoader (Some []) "" tt)
    as (s' & HN & HK & HF & _ & _ & _ & _ & _ & HA);
    [reflexivity | reflexivity | reflexivity | reflexivity |].
  exists s'. repeat split; assumption.
Defined.

Lemma Next_on_loaded_pager_is_a_no_op_witness :
  Next tt (mkState (exhausted 100 emptyLoader) tt [("", 100)])
    = Returns (None, None)
        (mkState (exhausted 100 emptyLoader) tt [("", 100)]).
Proof.
  apply (Next_on_loaded_pager_is_a_no_op tt
           (mkState (exhausted 100 emptyLoader) tt [("", 100)])).
  reflexivity.
Defined.

Lemma All_stops_at_the_first_failure_witness :
  All 3 tt (fresh (builtWith 3 (threePagesLoader "third")))
  = Returns (Some [1; 2; 3; 4; 5; 6],
             Some (wrapError "page third: test error"
                             (errorString "test error")))
      (mkState (mkPager 3 "third" (Some (threePagesLoader "third"))
                        true (mkOnce true)) tt
         [("", 3); ("second", 3); ("third", 3)]).
Proof.
  refine (All_stops_at_the_first_failure tt
            (fresh (builtWith 3 (threePagesLoader "third")))
            (threePagesLoader "third") 2 firstTwoFetches tt
            None "" (errorString "test error") tt 3 _ _ _ _ _ _ _ _);
    [reflexivity | vm_compute; discriminate | reflexivity | reflexivity
    | reflexivity | reflexivity | reflexivity | lia].
Defined.

(** C2, where the code departs from it. [New] accepts the page size 2^62
    together with the loader of the three pages, whose successive calls all
    succeed. On linux/amd64, whatever memory the machine has, [All] on the
    pager it builds then panics in [make], in the state [New] left and so
    before the loader has been asked for anything, instead of returning the
    eight items. *)
Theorem All_panics_instead_of_returning_the_pages (rt : Makeslice Z) :
  @maxCap Z rt <= maxAlloc / 8 ->
  New [WithPageSize (2 ^ 62);
       WithNextPageLoader (Some (threePagesLoader "no-error"))]
    = (Some (builtWith (2 ^ 62) (threePagesLoader "no-error")), None) /\
  successive (threePagesLoader "no-error") tt (2 ^ 62) 3 "" tt
    = ([(("", 2 ^ 62), (Some [1; 2; 3], "second", None));
        (("second", 2 ^ 62), (Some [4; 5; 6], "third", None));
        (("third", 2 ^ 62), (Some [7; 8], "", None))], tt) /\
  (forall fuel : nat,
      @All Z unit unit rt fuel tt
           (fresh (builtWith (2 ^ 62) (threePagesLoader "no-error")))
      = Panics makesliceCap
          (fresh (builtWith (2 ^ 62) (threePagesLoader "no-error")))).
Proof.
  intro Hrt. split; [reflexivity|]. split; [reflexivity|].
  intro fuel. apply All_when_refused. apply refused_true. right.
  cbn [fresh pager builtWith pageSize].
  apply Z.le_lt_trans with (maxAlloc / 8); [exact Hrt|reflexivity].
Qed.

Lemma All_panics_instead_of_returning_the_pages_witness :
  New [WithPageSize (2 ^ 62);
       WithNextPageLoader (Some (threePagesLoader "no-error"))]
    = (Some (builtWith (2 ^ 62) (threePagesLoader "no-error")), None) /\
  All 3 tt (fresh (builtWith (2 ^ 62) (threePagesLoader "no-error")))
  = Panics makesliceCap
      (fresh (builtWith (2 ^ 62) (threePagesLoader "no-error"))).
Proof.
  destruct (All_panics_instead_of_returning_the_pages makesliceInt)
    as (HN & _ & HA); [vm_compute; discriminate|].
  split; [exact HN|exact (HA 3%nat)].
Defined.



(** C7, as written, fails: with no loader among the options, or a nil one,
    an earlier invalid option decides the error, which is then not the one
    about the loader. *)
Lemma New_without_loader_reports_the_first_failure :
  existsb suppliesLoader [@SetPageSize Z unit unit 0] = false /\
  New (map option_of [@SetPageSize Z unit unit 0])
    = (None, Some (errorString "page size must be positive")) /\
  New (map option_of [@SetPageSize Z unit unit 0])
    <> (None, Some (errorString "next page loader is required")) /\
  existsb suppliesLoader
    [@SetPageSize Z unit unit 0; SetNextPageLoader None] = false /\
  New (map option_of [@SetPageSize Z unit unit 0; SetNextPageLoader None])
    = (None, Some (errorString "page size must be positive")) /\
  New (map option_of [@SetPageSize Z unit unit 0; SetNextPageLoader None])
    <> (None, Some (errorString "next page loader is required")).
Proof. repeat split; try reflexivity; discriminate. Qed.

Lemma New_applies_options_in_order_and_requires_a_loader_witness :
  New [@WithPageSize Z unit unit 20; WithNextPageKey ""; WithPageSize 0]
    = (None, Some (errorString "next page key must not be empty")) /\
  New (map option_of
         [@SetPageSize Z unit unit 20; SetNextPageKey "from-here";
          SetNextPageLoader None])
    = (None, Some (errorString "next page loader is required")) /\
  New (map option_of [@SetPageSize Z unit unit 20])
    = (None, Some (errorString "next page loader is required")).
Proof.
  destruct (@New_applies_options_in_order_and_requires_a_loader Z unit unit)
    as (_ & Hfirst & _ & _ & Hnone).
  split; [|split].
  - apply (Hfirst [WithPageSize 20] (WithNextPageKey "") [WithPageSize 0]
                  (mkPager 20 "" None false (mkOnce false))
                  (mkPager 20 "" None false (mkOnce false)));
      reflexivity.
  - apply (Hnone [SetPageSize 20; SetNextPageKey "from-here";
                  SetNextPageLoader None]); reflexivity.
  - apply (Hnone [SetPageSize 20]); reflexivity.
Defined.

Lemma option_validation_witness :
  snd (WithPageSize (-1) (builtWith 100 emptyLoader))
    = Some (errorString "page size must be positive") /\
  pageSize (fst (WithPageSize 20 (builtWith 100 emptyLoader))) = 20 /\
  snd (WithNextPageKey "" (builtWith 100 emptyLoader))
    = Some (errorString "next page key must not be empty") /\
  nextPageKey (fst (WithNextPageKey "next-page-key"
                      (builtWith 100 emptyLoader))) = "next-page-key" /\
  pageSize (builtWith 100 emptyLoader) = 100.
Proof.
  destruct (@option_validation Z unit unit)
    as (Hsize & Hkey & _ & _ & Hdefault).
  destruct (Hsize (-1) (builtWith 100 emptyLoader)) as (Hbad & _).
  destruct (Hsize 20 (builtWith 100 emptyLoader)) as (_ & _ & _ & Hgood).
  destruct (Hkey "" (builtWith 100 emptyLoader)) as (Hempty & _).
  destruct (Hkey "next-page-key" (builtWith 100 emptyLoader))
    as (_ & _ & _ & Hstored).
  split; [apply Hbad; lia|].
  split; [apply Hgood; lia|].
  split; [apply Hempty; reflexivity|].
  split; [apply Hstored; discriminate|].
  apply (Hdefault [SetNextPageLoader (Some emptyLoader)]); reflexivity.
Defined.




Lemma fully_loaded_is_absorbing_witness :
  exists rs : list (slice Z * option error),
    runCalls 0 [CallNext tt; CallAll tt; CallNext tt]
             (mkState (exhausted 100 emptyLoader) tt [("", 100)])
      = Returns rs (mkState (exhausted 100 emptyLoader) tt [("", 100)]) /\
    List.length rs = 3%nat.
Proof.
  destruct (fully_loaded_is_absorbing 0 [CallNext tt; CallAll tt; CallNext tt]
              (mkState (exhausted 100 emptyLoader) tt [("", 100)]))
    as (_ & _ & Hreturns & _); [reflexivity|].
  destruct Hreturns as (rs & HR & Hlen & _);
    [left; vm_compute; split; discriminate|].
  exists rs. split; assumption.
Defined.

(** * Further properties of the package *)

Section PageMore.

Context {T Ctx LoaderState : Type} {runtime : Makeslice T}.

Local Abbreviation Pager := (@Pager T Ctx LoaderState).
Local Abbreviation State := (@State T Ctx LoaderState).
Local Abbreviation Loader := (@Loader T Ctx LoaderState).
Local Abbreviation Setting := (@Setting T Ctx LoaderState).
Local Abbreviation LoadReply := (@LoadReply T).

(** ** Construction, setting by setting *)

Lemma option_of_valid (c : Setting) (p : Pager) :
  settingValid c = true ->
  option_of c p
  = (mkPager (lastPageSize [c] (pageSize p))
             (lastNextPageKey [c] (nextPageKey p))
             (lastLoader [c] (nextPageLoader p))
             (isFirstPageLoaded p) (isFirstPageLoadedOnce p), None).
Proof.
  destruct c as [key|size|[ld|]]; simpl; intro H;
    unfold WithNextPageKey, WithPageSize, WithNextPageLoader.
  - apply negb_true_iff in H. now rewrite H.
  - apply Z.ltb_lt in H.
    replace (size <=? 0) with false by (symmetry; apply Z.leb_gt; exact H).
    reflexivity.
  - reflexivity.
  - discriminate.
Qed.

Lemma option_of_invalid (c : Setting) (p : Pager) :
  settingValid c = false ->
  option_of c p = (p, Some (settingError c)).
Proof.
  destruct c as [key|size|[ld|]]; simpl; intro H;
    unfold WithNextPageKey, WithPageSize, WithNextPageLoader.
  - apply negb_false_iff in H. now rewrite H.
  - apply Z.ltb_ge in H.
    replace (size <=? 0) with true by (symmetry; apply Z.leb_le; exact H).
    reflexivity.
  - discriminate.
  - reflexivity.
Qed.

Lemma applyOptions_valid (cs : list Setting) :
  forall p : Pager,
    forallb settingValid cs = true ->
    applyOptions (map option_of cs) p
    = (mkPager (lastPageSize cs (pageSize p))
               (lastNextPageKey cs (nextPageKey p))
               (lastLoader cs (nextPageLoader p))
               (isFirstPageLoaded p) (isFirstPageLoadedOnce p), None).
Proof.
  induction cs as [|c cs IH]; intros p H.
  - now destruct p.
  - simpl in H. apply andb_true_iff in H. destruct H as [Hc H].
    cbn [map applyOptions]. rewrite (option_of_valid c p Hc).
    rewrite (IH _ H). reflexivity.
Qed.

Lemma applyOptions_invalid (cs : list Setting) :
  forall (p : Pager) (c : Setting),
    find (fun c => negb (settingValid c)) cs = Some c ->
    snd (applyOptions (map option_of cs) p) = Some (settingError c).
Proof.
  induction cs as [|c0 cs IH]; intros p c H; [discriminate|].
  cbn [find] in H. cbn [map applyOptions].
  destruct (settingValid c0) eqn:Hv; simpl in H.
  - rewrite (option_of_valid c0 p Hv). exact (IH _ c H).
  - inversion H; subst. now rewrite (option_of_invalid c p Hv).
Qed.

Lemma find_invalid (cs : list Setting) :
  forallb settingValid cs = false ->
  exists c, find (fun c => negb (settingValid c)) cs = Some c.
Proof.
  induction cs as [|c cs IH]; intro H; [discriminate|].
  simpl in *. destruct (settingValid c); simpl in *.
  - now apply IH.
  - now exists c.
Qed.

Lemma find_all_valid (cs : list Setting) :
  forallb settingValid cs = true ->
  find (fun c => negb (settingValid c)) cs = None.
Proof.
  induction cs as [|c cs IH]; intro H; [reflexivity|].
  simpl in *. apply andb_true_iff in H. destruct H as [Hc H].
  rewrite Hc. simpl. now apply IH.
Qed.

Lemma lastLoader_some (cs : list Setting) :
  forall ld : Loader, exists ld' : Loader, lastLoader cs (Some ld) = Some ld'.
Proof.
  induction cs as [|c cs IH]; intro ld; [now exists ld|].
  destruct c as [key|size|[l|]]; apply IH.
Qed.

Lemma lastLoader_supplied (cs : list Setting) :
  forall d : option Loader,
    existsb suppliesLoader cs = true ->
    exists ld : Loader, lastLoader cs d = Some ld.
Proof.
  induction cs as [|c cs IH]; intros d H; [discriminate|].
  simpl in H. destruct c as [key|size|[l|]]; simpl in H;
    try (apply IH; exact H).
  apply (lastLoader_some cs l).
Qed.

Lemma lastLoader_not_supplied (cs : list Setting) :
  forall d : option Loader,
    existsb suppliesLoader cs = false -> lastLoader cs d = d.
Proof.
  induction cs as [|c cs IH]; intros d H; [reflexivity|].
  simpl in H. destruct c as [key|size|[l|]]; simpl in H;
    try discriminate; apply IH; exact H.
Qed.

Lemma lastPageSize_positive (cs : list Setting) :
  forall d : Z,
    forallb settingValid cs = true -> 0 < d -> 0 < lastPageSize cs d.
Proof.
  induction cs as [|c cs IH]; intros d H Hd; [exact Hd|].
  simpl in H. apply andb_true_iff in H. destruct H as [Hc H].
  destruct c as [key|size|l]; try (apply IH; assumption).
  apply IH; [exact H|]. simpl in Hc. now apply Z.ltb_lt.
Qed.

(** X1. [New] on a list of the package's options returns a pager exactly
    when every option is valid and at least one hands over a loader. The
    pager then holds the last page size, the last key and the last loader
    supplied, 100 and the empty key where none was, and counts no page as
    loaded. *)
Theorem New_succeeds_exactly_on_valid_settings_with_a_loader
    (cs : list Setting) :
  (forallb settingValid cs = true ->
   existsb suppliesLoader cs = true ->
   New (map option_of cs)
   = (Some (mkPager (lastPageSize cs 100) (lastNextPageKey cs "")
                    (lastLoader cs None) false (mkOnce false)), None) /\
   0 < lastPageSize cs 100 /\
   lastLoader cs None <> None) /\
  (forall (p : Pager) (e : option error),
      New (map option_of cs) = (Some p, e) ->
      forallb settingValid cs = true /\ existsb suppliesLoader cs = true).
Proof.
  split.
  - intros Hv Hs.
    destruct (lastLoader_supplied cs None Hs) as [ld Hld].
    split; [|split].
    + unfold New. rewrite (applyOptions_valid cs zeroPager Hv). simpl.
      now rewrite Hld.
    + apply lastPageSize_positive; [exact Hv|reflexivity].
    + now rewrite Hld.
  - intros p e H. apply New_some in H. destruct H as [Ha [Hl _]].
    destruct (forallb settingValid cs) eqn:Hv.
    + split; [reflexivity|].
      destruct (existsb suppliesLoader cs) eqn:Hs; [reflexivity|].
      rewrite (applyOptions_valid cs zeroPager Hv) in Ha.
      inversion Ha; subst. unfold hasLoader in Hl. simpl in Hl.
      now rewrite (lastLoader_not_supplied cs None Hs) in Hl.
    + destruct (find_invalid cs Hv) as [c Hc].
      pose proof (applyOptions_invalid cs zeroPager c Hc) as Hsnd.
      rewrite Ha in Hsnd. discriminate.
Qed.

(** X2. When [New] fails on a list of the package's options, its error is
    that of the first invalid option in the list; when all are valid and
    only the loader is missing, it is "next page loader is required". No
    pager comes back. *)
Theorem New_fails_with_the_first_invalid_option (cs : list Setting) :
  forallb settingValid cs && existsb suppliesLoader cs = false ->
  New (map option_of cs) = (None, Some (constructionError cs)).
Proof.
  intro H. unfold New, constructionError.
  destruct (forallb settingValid cs) eqn:Hv.
  - simpl in H. rewrite (find_all_valid cs Hv).
    rewrite (applyOptions_valid cs zeroPager Hv). simpl.
    now rewrite (lastLoader_not_supplied cs None H).
  - destruct (find_invalid cs Hv) as [c Hc]. rewrite Hc.
    pose proof (applyOptions_invalid cs zeroPager c Hc) as Hsnd.
    destruct (applyOptions (map option_of cs) zeroPager) as [q [e|]];
      simpl in Hsnd; [|discriminate].
    now inversion Hsnd.
Qed.

(** ** The methods, case by case *)

(** The four ways [Next] can go. *)
Lemma Next_cases (ctx : Ctx) (s : State) :
  (IsAllLoaded (pager s) = true /\ Next ctx s = Returns (None, None) s) \/
  (IsAllLoaded (pager s) = false /\ nextPageLoader (pager s) = None /\
   Next ctx s = Panics nilDereference s) \/
  (IsAllLoaded (pager s) = false /\
   exists (ld : Loader) (page : slice T) (k : string) (e : error)
          (ls' : LoaderState),
     nextPageLoader (pager s) = Some ld /\
     Load ld ctx (nextPageKey (pager s)) (pageSize (pager s)) (loaderState s)
       = ((page, k, Some e), ls') /\
     Next ctx s
       = Returns (None, Some (Errorf_page (nextPageKey (pager s)) e))
           (mkState (pager s) ls'
              (loads s ++ [(nextPageKey (pager s), pageSize (pager s))]))) \/
  (IsAllLoaded (pager s) = false /\
   exists (ld : Loader) (page : slice T) (k : string) (ls' : LoaderState),
     nextPageLoader (pager s) = Some ld /\
     Load ld ctx (nextPageKey (pager s)) (pageSize (pager s)) (loaderState s)
       = ((page, k, None), ls') /\
     Next ctx s
       = Returns (page, None)
           (mkState
              (mkPager (pageSize (pager s)) k (Some ld)
                 (if done (isFirstPageLoadedOnce (pager s))
                  then isFirstPageLoaded (pager s) else true)
                 (if done (isFirstPageLoadedOnce (pager s))
                  then isFirstPageLoadedOnce (pager s) else mkOnce true))
              ls'
              (loads s ++ [(nextPageKey (pager s), pageSize (pager s))]))).
Proof.
  destruct (IsAllLoaded (pager s)) eqn:Hn.
  - left. split; [reflexivity|]. now apply Next_when_loaded.
  - right. destruct (nextPageLoader (pager s)) as [ld|] eqn:Hl.
    + right.
      destruct (Load ld ctx (nextPageKey (pager s)) (pageSize (pager s))
                  (loaderState s)) as [[[page k] [e|]] ls'] eqn:HL.
      * left. split; [reflexivity|]. exists ld, page, k, e, ls'.
        split; [reflexivity|]. split; [exact HL|].
        exact (Next_when_Load_fails ctx s ld page k e ls' Hn Hl HL).
      * right. split; [reflexivity|]. exists ld, page, k, ls'.
        split; [reflexivity|]. split; [exact HL|].
        exact (Next_when_Load_succeeds ctx s ld page k ls' Hn Hl HL).
    + left. repeat split. now apply Next_when_nil_loader.
Qed.

Lemma evolvesTo_refl (s : State) : evolvesTo s s.
Proof.
  repeat split; auto. exists []. split; [now rewrite app_nil_r|constructor].
Qed.

Lemma evolvesTo_trans (s1 s2 s3 : State) :
  evolvesTo s1 s2 -> evolvesTo s2 s3 -> evolvesTo s1 s3.
Proof.
  intros (Hs & Hl & Hf & c1 & Hc1 & Ha1) (Hs' & Hl' & Hf' & c2 & Hc2 & Ha2).
  repeat split; try congruence; auto.
  exists (c1 ++ c2). split.
  - rewrite Hc2, Hc1. now rewrite app_assoc.
  - apply Forall_app. split; [exact Ha1|].
    rewrite Hs in Ha2. exact Ha2.
Qed.

Lemma Next_evolves (ctx : Ctx) (s s' : State) (r : slice T * option error) :
  Next ctx s = Returns r s' -> evolvesTo s s'.
Proof.
  intro HN.
  destruct (Next_cases ctx s)
    as [[_ H]|[(_ & _ & H)|[(_ & ld & page & k & e & ls' & Hl & _ & H)
                           |(_ & ld & page & k & ls' & Hl & _ & H)]]];
    rewrite H in HN; try discriminate; inversion HN; subst.
  - apply evolvesTo_refl.
  - repeat split; simpl; auto.
    eexists. split; [reflexivity|]. repeat constructor.
  - repeat split; simpl; auto.
    + intro Hf. rewrite Hf. now destruct (done _).
    + eexists. split; [reflexivity|]. repeat constructor.
Qed.

Lemma allLoop_evolves (ctx : Ctx) (fuel : nat) :
  forall (acc : slice T) (s s' : State) (r : slice T * option error),
    allLoop fuel ctx acc s = Returns r s' -> evolvesTo s s'.
Proof.
  induction fuel as [|fuel IH]; intros acc s s' r HA;
    cbn [allLoop] in HA; unfold bind at 1, getPager at 1 in HA;
    destruct (IsAllLoaded (pager s)) eqn:Hn.
  - inversion HA; subst. apply evolvesTo_refl.
  - discriminate.
  - inversion HA; subst. apply evolvesTo_refl.
  - unfold bind in HA.
    destruct (Next ctx s) as [[page err] s1| |] eqn:HN; try discriminate.
    pose proof (Next_evolves ctx s s1 _ HN) as H1.
    destruct err as [e|].
    + inversion HA; subst. exact H1.
    + exact (evolvesTo_trans _ _ _ H1 (IH _ _ _ _ HA)).
Qed.

Lemma All_evolves (ctx : Ctx) (fuel : nat) (s s' : State)
    (r : slice T * option error) :
  All fuel ctx s = Returns r s' -> evolvesTo s s'.
Proof.
  intro HA. rewrite All_unfold in HA.
  destruct (refused (pageSize (pager s))); [discriminate|].
  exact (allLoop_evolves ctx fuel _ _ _ _ HA).
Qed.

Lemma runCalls_cons (fuel : nat) (c : @Call Ctx) (cs : list (@Call Ctx))
    (s s' : State) (rs : list (slice T * option error)) :
  runCalls fuel (c :: cs) s = Returns rs s' ->
  exists (r : slice T * option error) (s1 : State)
         (rs' : list (slice T * option error)),
    match c with
    | CallNext ctx => Next ctx
    | CallAll ctx => All fuel ctx
    end s = Returns r s1 /\
    runCalls fuel cs s1 = Returns rs' s' /\
    rs = r :: rs'.
Proof.
  intro H. cbn [runCalls] in H. unfold bind at 1 in H.
  destruct (match c with
            | CallNext ctx => Next ctx
            | CallAll ctx => All fuel ctx
            end s) as [r s1| |] eqn:Hc; try discriminate.
  unfold bind at 1 in H.
  destruct (runCalls fuel cs s1) as [rs' s2| |] eqn:Hr; try discriminate.
  unfold ret in H. inversion H; subst.
  exists r, s1, rs'. split; [reflexivity|]. split; [exact Hr|reflexivity].
Qed.

Lemma runCalls_evolves (fuel : nat) (cs : list (@Call Ctx)) :
  forall (s s' : State) (rs : list (slice T * option error)),
    runCalls fuel cs s = Returns rs s' -> evolvesTo s s'.
Proof.
  induction cs as [|c cs IH]; intros s s' rs H.
  - cbn in H. inversion H; subst. apply evolvesTo_refl.
  - destruct (runCalls_cons fuel c cs s s' rs H) as (r & s1 & rs' & Hc & Hr & _).
    apply (evolvesTo_trans s s1 s'); [|exact (IH _ _ _ Hr)].
    destruct c as [ctx|ctx];
      [exact (Next_evolves ctx s s1 r Hc)|exact (All_evolves ctx fuel s s1 r Hc)].
Qed.

Lemma runCalls_keeps_wellFormed (fuel : nat) (cs : list (@Call Ctx)) :
  forall (s s' : State) (rs : list (slice T * option error)),
    wellFormed (pager s) = true ->
    runCalls fuel cs s = Returns rs s' ->
    wellFormed (pager s') = true.
Proof.
  induction cs as [|c cs IH]; intros s s' rs Hw H.
  - cbn in H. inversion H; subst. exact Hw.
  - destruct (runCalls_cons fuel c cs s s' rs H) as (r & s1 & rs' & Hc & Hr & _).
    apply (IH s1 s' rs'); [|exact Hr].
    destruct c as [ctx|ctx];
      [exact (Next_keeps_wellFormed ctx s s1 r Hw Hc)
      |exact (All_keeps_wellFormed ctx fuel s s1 r Hw Hc)].
Qed.

(** X3. Whatever sequence of [Next] and [All] calls a client makes, the
    page size and the loader of the pager stay what they were, a first page
    once loaded stays loaded, and a pager that satisfied the invariant of
    [New] (positive page size, a loader, flag and guard in step) still
    does. *)
Theorem calls_keep_the_configuration
    (fuel : nat) (cs : list (@Call Ctx)) (s s' : State)
    (rs : list (slice T * option error)) :
  runCalls fuel cs s = Returns rs s' ->
  pageSize (pager s') = pageSize (pager s) /\
  nextPageLoader (pager s') = nextPageLoader (pager s) /\
  (isFirstPageLoaded (pager s) = true ->
   isFirstPageLoaded (pager s') = true) /\
  (wellFormed (pager s) = true -> wellFormed (pager s') = true).
Proof.
  intro H. destruct (runCalls_evolves fuel cs s s' rs H) as (Hs & Hl & Hf & _).
  repeat split; auto.
  intro Hw. exact (runCalls_keeps_wellFormed fuel cs s s' rs Hw H).
Qed.

(** X4. Whatever sequence of [Next] and [All] calls a client makes, the
    loader calls made before are still in the log, in place, and every
    call added asked for the page size the pager is configured with. *)
Theorem calls_ask_for_the_configured_page_size
    (fuel : nat) (cs : list (@Call Ctx)) (s s' : State)
    (rs : list (slice T * option error)) :
  runCalls fuel cs s = Returns rs s' ->
  exists calls : list LoadCall,
    loads s' = loads s ++ calls /\
    Forall (fun c => snd c = pageSize (pager s)) calls.
Proof.
  intro H. destruct (runCalls_evolves fuel cs s s' rs H) as (_ & _ & _ & Hc).
  exact Hc.
Qed.

(** ** Panics *)

Lemma Next_no_panic (ctx : Ctx) (s : State) :
  hasLoader (pager s) = true -> isPanic (Next ctx s) = false.
Proof.
  intro Hl. unfold hasLoader in Hl.
  destruct (Next_cases ctx s)
    as [[_ H]|[(_ & Hnil & H)|[(_ & ld & page & k & e & ls' & _ & _ & H)
                              |(_ & ld & page & k & ls' & _ & _ & H)]]];
    try (rewrite H; reflexivity).
  rewrite Hnil in Hl. discriminate.
Qed.

Lemma evolvesTo_hasLoader (s s' : State) :
  evolvesTo s s' -> hasLoader (pager s) = true -> hasLoader (pager s') = true.
Proof. intros (_ & Hl & _) H. unfold hasLoader in *. now rewrite Hl. Qed.

Lemma allLoop_no_panic (ctx : Ctx) (fuel : nat) :
  forall (acc : slice T) (s : State),
    hasLoader (pager s) = true -> isPanic (allLoop fuel ctx acc s) = false.
Proof.
  induction fuel as [|fuel IH]; intros acc s Hl;
    cbn [allLoop]; unfold bind at 1, getPager at 1;
    destruct (IsAllLoaded (pager s)); try reflexivity.
  unfold bind.
  pose proof (Next_no_panic ctx s Hl) as Hp.
  destruct (Next ctx s) as [[page err] s1| |] eqn:HN;
    try reflexivity; try discriminate.
  destruct err as [e|]; [reflexivity|].
  apply IH. exact (evolvesTo_hasLoader s s1 (Next_evolves ctx s s1 _ HN) Hl).
Qed.

Lemma All_no_panic (ctx : Ctx) (fuel : nat) (s : State) :
  hasLoader (pager s) = true ->
  refused (pageSize (pager s)) = false ->
  isPanic (All fuel ctx s) = false.
Proof.
  intros Hl Hsz. rewrite All_unfold, Hsz. now apply allLoop_no_panic.
Qed.

(** X5. On a pager that has a loader and a page size for which [make]
    grants a buffer, no sequence of [Next] and [All] calls panics. *)
Theorem calls_never_panic_with_a_loader
    (fuel : nat) (cs : list (@Call Ctx)) (s : State) :
  hasLoader (pager s) = true ->
  0 <= pageSize (pager s) <= maxCap ->
  isPanic (runCalls fuel cs s) = false.
Proof.
  intros Hl Hcap. apply refused_false in Hcap. rename Hcap into Hsz.
  revert s Hl Hsz. induction cs as [|c cs IH]; intros s Hl Hsz; [reflexivity|].
  cbn [runCalls]. unfold bind at 1.
  assert (Hp : isPanic (match c with
                        | CallNext ctx => Next ctx
                        | CallAll ctx => All fuel ctx
                        end s) = false)
    by (destruct c; [now apply Next_no_panic|now apply All_no_panic]).
  destruct (match c with
            | CallNext ctx => Next ctx
            | CallAll ctx => All fuel ctx
            end s) as [r s1| |] eqn:Hc; try reflexivity; try discriminate.
  assert (He : evolvesTo s s1)
    by (destruct c; [exact (Next_evolves _ _ _ _ Hc)
                    |exact (All_evolves _ _ _ _ _ Hc)]).
  unfold bind at 1.
  assert (Hp1 : isPanic (runCalls fuel cs s1) = false).
  { apply IH; [exact (evolvesTo_hasLoader s s1 He Hl)|].
    destruct He as (Hs & _). now rewrite Hs. }
  destruct (runCalls fuel cs s1); try reflexivity; discriminate.
Qed.

(** X6. [Next] panics exactly when the pager is not fully loaded and has no
    loader, as the zero value of the pager type; it is a nil dereference
    and the state is as before. [All], when it is allowed at least one
    iteration, panics exactly when [make] refuses a buffer for the page
    size (a negative one, or one beyond what the run-time system grants),
    or [Next] would panic. *)
Theorem methods_panic_exactly_without_a_loader (ctx : Ctx) (s : State) :
  (isPanic (Next ctx s) = true <->
   IsAllLoaded (pager s) = false /\ nextPageLoader (pager s) = None) /\
  (IsAllLoaded (pager s) = false -> nextPageLoader (pager s) = None ->
   Next ctx s = Panics nilDereference s) /\
  (forall fuel : nat,
      isPanic (All (S fuel) ctx s) = true <->
      pageSize (pager s) < 0 \/ maxCap < pageSize (pager s) \/
      (IsAllLoaded (pager s) = false /\ nextPageLoader (pager s) = None)) /\
  (pageSize (pager s) < 0 \/ maxCap < pageSize (pager s) ->
   forall fuel : nat, All fuel ctx s = Panics makesliceCap s).
Proof.
  split; [|split; [|split]].
  - split.
    + intro Hp.
      destruct (Next_cases ctx s)
        as [[_ H]|[(Hn & Hnil & H)|[(_ & ld & page & k & e & ls' & _ & _ & H)
                                   |(_ & ld & page & k & ls' & _ & _ & H)]]];
        rewrite H in Hp; try discriminate. now split.
    + intros [Hn Hl]. now rewrite (Next_when_nil_loader ctx s Hn Hl).
  - intros Hn Hl. exact (Next_when_nil_loader ctx s Hn Hl).
  - intro fuel. split.
    + intro Hp. destruct (refused (pageSize (pager s))) eqn:Hr.
      * apply refused_true in Hr. tauto.
      * right; right.
        destruct (IsAllLoaded (pager s)) eqn:Hn.
        -- rewrite (All_when_loaded (S fuel) ctx s Hr Hn) in Hp. discriminate.
        -- split; [reflexivity|].
           destruct (nextPageLoader (pager s)) as [ld|] eqn:Hl; [|reflexivity].
           rewrite All_no_panic in Hp; [discriminate| |exact Hr].
           unfold hasLoader. now rewrite Hl.
    + intro H. rewrite All_unfold.
      destruct (refused (pageSize (pager s))) eqn:Hr; [reflexivity|].
      apply refused_false in Hr.
      destruct H as [Hneg|[Hbig|[Hn Hl]]]; try lia.
      cbn [allLoop]. unfold bind at 1, getPager at 1.
      rewrite Hn. unfold bind.
      now rewrite (Next_when_nil_loader ctx s Hn Hl).
  - intros H fuel. apply All_when_refused. apply refused_true.
    destruct H; [now left|now right].
Qed.

(** ** What comes back *)

Lemma Next_error_only_after_Load_error
    (ctx : Ctx) (s s' : State) (page : slice T) (err : error) :
  Next ctx s = Returns (page, Some err) s' ->
  page = None /\
  pager s' = pager s /\
  IsAllLoaded (pager s) = false /\
  exists (ld : Loader) (pg : slice T) (k : string) (e : error),
    nextPageLoader (pager s) = Some ld /\
    Load ld ctx (nextPageKey (pager s)) (pageSize (pager s)) (loaderState s)
      = ((pg, k, Some e), loaderState s') /\
    err = Errorf_page (nextPageKey (pager s)) e.
Proof.
  intro HN.
  destruct (Next_cases ctx s)
    as [[_ H]|[(_ & _ & H)|[(Hn & ld & pg & k & e & ls' & Hl & HL & H)
                           |(_ & ld & pg & k & ls' & _ & _ & H)]]];
    rewrite H in HN; try discriminate; inversion HN; subst.
  repeat split; auto. exists ld, pg, k, e. simpl. auto.
Qed.

(** X7. [Next] returns an error only when the loader did: the pager was not
    fully loaded, its loader failed on the current key, the error is that
    failure wrapped under the key, no page comes with it and the pager is
    as before. With a loader that never fails [Next] never returns an
    error. *)
Theorem Next_errors_come_from_the_loader
    (ctx : Ctx) (s s' : State) (page : slice T) (err : error) :
  Next ctx s = Returns (page, Some err) s' ->
  page = None /\
  pager s' = pager s /\
  IsAllLoaded (pager s) = false /\
  exists (ld : Loader) (pg : slice T) (k : string) (e : error),
    nextPageLoader (pager s) = Some ld /\
    Load ld ctx (nextPageKey (pager s)) (pageSize (pager s)) (loaderState s)
      = ((pg, k, Some e), loaderState s') /\
    err = Errorf_page (nextPageKey (pager s)) e.
Proof. exact (Next_error_only_after_Load_error ctx s s' page err). Qed.

Lemma allLoop_outcome (ctx : Ctx) (fuel : nat) :
  forall (acc : list T) (s s' : State) (r : slice T) (e : option error),
    allLoop fuel ctx (Some acc) s = Returns (r, e) s' ->
    (exists items : list T, r = Some items) /\
    (e = None <-> IsAllLoaded (pager s') = true) /\
    (forall err : error,
        e = Some err ->
        exists (ld : Loader) (pg : slice T) (k : string) (cause : error)
               (ls : LoaderState) (earlier : list LoadCall),
          nextPageLoader (pager s') = Some ld /\
          Load ld ctx (nextPageKey (pager s')) (pageSize (pager s')) ls
            = ((pg, k, Some cause), loaderState s') /\
          loads s'
            = earlier ++ [(nextPageKey (pager s'), pageSize (pager s'))] /\
          err = Errorf_page (nextPageKey (pager s')) cause).
Proof.
  induction fuel as [|fuel IH]; intros acc s s' r e HA;
    cbn [allLoop] in HA; unfold bind at 1, getPager at 1 in HA;
    destruct (IsAllLoaded (pager s)) eqn:Hn; try discriminate;
    try (inversion HA; subst; split; [now exists acc|];
         split; [tauto|discriminate]).
  unfold bind in HA.
  destruct (Next_cases ctx s)
    as [[Hn' _]|[(_ & _ & H)|[(_ & ld & pg & k & e0 & ls' & Hl & HL & H)
                             |(_ & ld & pg & k & ls' & _ & _ & H)]]];
    [rewrite Hn in Hn'; discriminate | | |]; rewrite H in HA.
  - discriminate.
  - inversion HA; subst. cbn [pager loaderState loads].
    split; [now exists acc|]. split.
    + split; [discriminate|]. intro Hc. rewrite Hn in Hc. discriminate.
    + intros err Herr. inversion Herr; subst.
      exists ld, pg, k, e0, (loaderState s), (loads s). auto.
  - rewrite append_non_nil in HA. exact (IH _ _ _ _ _ HA).
Qed.

(** X8. What [All] returns is never the nil slice, not even when nothing
    was fetched or the very first fetch failed: it is the buffer [All]
    made, with the items fetched. *)
Theorem All_never_returns_nil
    (ctx : Ctx) (fuel : nat) (s s' : State) (r : slice T)
    (e : option error) :
  All fuel ctx s = Returns (r, e) s' ->
  exists items : list T, r = Some items.
Proof.
  intro HA. rewrite All_unfold in HA.
  destruct (refused (pageSize (pager s))); [discriminate|].
  exact (proj1 (allLoop_outcome ctx fuel [] s s' r e HA)).
Qed.

(** X9. [All] returns without an error exactly when it leaves the pager
    fully loaded. When it returns an error, the last thing it did was to
    ask the pager's loader for the key the pager is left at, that call
    failed, and the error is that failure wrapped under that key; so
    calling [All] or [Next] again asks for exactly the page that failed. *)
Theorem All_ends_loaded_or_at_the_failed_key
    (ctx : Ctx) (fuel : nat) (s s' : State) (r : slice T)
    (e : option error) :
  All fuel ctx s = Returns (r, e) s' ->
  (e = None <-> IsAllLoaded (pager s') = true) /\
  (forall err : error,
      e = Some err ->
      exists (ld : Loader) (pg : slice T) (k : string) (cause : error)
             (ls : LoaderState) (earlier : list LoadCall),
        nextPageLoader (pager s') = Some ld /\
        Load ld ctx (nextPageKey (pager s')) (pageSize (pager s')) ls
          = ((pg, k, Some cause), loaderState s') /\
        loads s'
          = earlier ++ [(nextPageKey (pager s'), pageSize (pager s'))] /\
        err = Errorf_page (nextPageKey (pager s')) cause /\
        Error err
          = ("page " ++ nextPageKey (pager s') ++ ": " ++ Error cause)%string /\
        Unwrap err = Some cause).
Proof.
  intro HA. rewrite All_unfold in HA.
  destruct (refused (pageSize (pager s))); [discriminate|].
  destruct (allLoop_outcome ctx fuel [] s s' r e HA) as (_ & Hiff & Herr).
  split; [exact Hiff|].
  intros err He.
  destruct (Herr err He) as (ld & pg & k & cause & ls & earlier & H1 & H2 & H3 & H4).
  exists ld, pg, k, cause, ls, earlier. subst err. repeat split; assumption.
Qed.

(** ** Picking up where a fetch left off *)

(** One turn of the loop, spelled out. *)
Lemma allLoop_unfold (ctx : Ctx) (fuel : nat) (acc : slice T) (s : State) :
  allLoop fuel ctx acc s
  = if IsAllLoaded (pager s) then Returns (acc, None) s
    else match fuel with
         | O => OutOfFuel
         | S fuel' =>
             match Next ctx s with
             | Returns (page, Some e) s1 => Returns (acc, Some e) s1
             | Returns (page, None) s1 =>
                 allLoop fuel' ctx (append acc page) s1
             | Panics msg s1 => Panics msg s1
             | OutOfFuel => OutOfFuel
             end
         end.
Proof.
  destruct fuel; cbn [allLoop]; unfold bind, getPager, ret, outOfFuel;
    destruct (IsAllLoaded (pager s)); try reflexivity.
  destruct (Next ctx s) as [[page [e|]] s1| |]; reflexivity.
Qed.

(** The buffer the loop starts with is only ever added to at its end. *)
Lemma allLoop_accumulates (ctx : Ctx) (fuel : nat) :
  forall (acc : list T) (s : State),
    allLoop fuel ctx (Some acc) s
    = match allLoop fuel ctx (Some []) s with
      | Returns (r, e) s' => Returns (Some (acc ++ elems r), e) s'
      | Panics msg s' => Panics msg s'
      | OutOfFuel => OutOfFuel
      end.
Proof.
  induction fuel as [|fuel IH]; intros acc s;
    rewrite (allLoop_unfold ctx _ (Some acc) s),
            (allLoop_unfold ctx _ (Some []) s);
    destruct (IsAllLoaded (pager s));
    try (simpl; now rewrite app_nil_r); try reflexivity.
  destruct (Next ctx s) as [[page [e|]] s1| |]; try reflexivity.
  - simpl. now rewrite app_nil_r.
  - rewrite !append_non_nil. simpl.
    rewrite (IH (acc ++ elems page) s1), (IH (elems page) s1).
    destruct (allLoop fuel ctx (Some []) s1) as [[r e] s'| |];
      try reflexivity.
    simpl. now rewrite app_assoc.
Qed.

(** X10. Fetching one page with [Next] and the rest with [All] gives, put
    together, what [All] gives in one go with one more iteration: the same
    items in the same order, the same error if any, the same final
    state. *)
Theorem All_is_Next_then_All
    (ctx : Ctx) (fuel : nat) (s s1 s2 : State) (page : slice T)
    (rest : list T) (e : option error) :
  Next ctx s = Returns (page, None) s1 ->
  All fuel ctx s1 = Returns (Some rest, e) s2 ->
  All (S fuel) ctx s = Returns (Some (elems page ++ rest), e) s2.
Proof.
  intros HN HA.
  destruct (Next_evolves ctx s s1 _ HN) as (Hs & _).
  rewrite All_unfold in HA. rewrite All_unfold.
  rewrite Hs in HA.
  destruct (refused (pageSize (pager s))); [discriminate|].
  destruct (IsAllLoaded (pager s)) eqn:Hn.
  - rewrite (Next_when_loaded ctx s Hn) in HN. inversion HN; subst.
    rewrite (allLoop_when_loaded fuel ctx _ s1 Hn) in HA.
    inversion HA; subst. now rewrite allLoop_when_loaded.
  - cbn [allLoop]. unfold bind at 1, getPager at 1. rewrite Hn.
    unfold bind at 1. rewrite HN. rewrite append_non_nil. simpl.
    rewrite allLoop_accumulates, HA. reflexivity.
Qed.

Lemma applyOptions_none_valid (cs : list Setting) (p0 p : Pager) :
  applyOptions (map option_of cs) p0 = (p, None) ->
  forallb settingValid cs = true.
Proof.
  intro Ha. destruct (forallb settingValid cs) eqn:Hv; [reflexivity|].
  destruct (find_invalid cs Hv) as [c Hc].
  pose proof (applyOptions_invalid cs p0 c Hc) as Hsnd.
  rewrite Ha in Hsnd. discriminate.
Qed.

(** X11. The first [Next] on a pager [New] has built from the package's
    options always goes to the loader, empty key or not, exactly once, and
    asks for the last key and the last page size the options supplied (the
    empty key and 100 by default). *)
Theorem first_fetch_asks_for_the_configured_page
    (cs : list Setting) (p : Pager) (ctx : Ctx) (ls : LoaderState)
    (log : list LoadCall) :
  New (map option_of cs) = (Some p, None) ->
  exists (r : slice T * option error) (s' : State),
    Next ctx (mkState p ls log) = Returns r s' /\
    loads s' = log ++ [(lastNextPageKey cs "", lastPageSize cs 100)].
Proof.
  intro H. apply New_some in H. destruct H as [Ha [Hl _]].
  pose proof (applyOptions_none_valid cs zeroPager p Ha) as Hv.
  rewrite (applyOptions_valid cs zeroPager Hv) in Ha.
  injection Ha as Hp. subst p. cbn [pageSize nextPageKey zeroPager] in *.
  set (p := mkPager _ _ _ _ _) in *.
  assert (Hn : IsAllLoaded p = false) by apply andb_false_r.
  destruct (Next_cases ctx (mkState p ls log))
    as [[Hn' _]|[(_ & Hnil & _)|[(_ & ld & pg & k & e & ls' & _ & _ & HN)
                               |(_ & ld & pg & k & ls' & _ & _ & HN)]]].
  - cbn [pager] in Hn'. rewrite Hn in Hn'. discriminate.
  - cbn [pager] in Hnil. unfold hasLoader in Hl. rewrite Hnil in Hl.
    discriminate.
  - do 2 eexists. split; [exact HN|]. reflexivity.
  - do 2 eexists. split; [exact HN|]. reflexivity.
Qed.

(** X12. [All] on a pager that is not fully loaded begins by asking the
    loader for the key the pager stands at, with the configured page size;
    whatever else it asks comes after. Together with X9 this is what
    makes a second [All] after a failure resume at the failed page. *)
Theorem All_starts_at_the_current_key
    (ctx : Ctx) (fuel : nat) (s s' : State) (r : slice T * option error) :
  IsAllLoaded (pager s) = false ->
  All fuel ctx s = Returns r s' ->
  exists calls : list LoadCall,
    loads s'
    = loads s ++ (nextPageKey (pager s), pageSize (pager s)) :: calls.
Proof.
  intros Hn HA. rewrite All_unfold in HA.
  destruct (refused (pageSize (pager s))); [discriminate|]. rewrite allLoop_unfold, Hn in HA.
  destruct fuel as [|fuel]; [discriminate|].
  destruct (Next_cases ctx s)
    as [[Hn' _]|[(_ & _ & H)|[(_ & ld & pg & k & e & ls' & _ & _ & H)
                             |(_ & ld & pg & k & ls' & _ & _ & H)]]];
    [rewrite Hn in Hn'; discriminate | | |]; rewrite H in HA.
  - discriminate.
  - inversion HA; subst. now exists [].
  - destruct (allLoop_evolves ctx fuel _ _ _ _ HA)
      as (_ & _ & _ & calls & Hc & _).
    exists calls. rewrite Hc. simpl. now rewrite <- app_assoc.
Qed.

End PageMore.

(** ** The loader of the tests at a key it does not know *)

Lemma mapIndex_absent {V : Type} (zero : V) (m : list (string * V))
    (k : string) :
  forallb (fun kv => negb (String.eqb (fst kv) k)) m = true ->
  mapIndex zero m k = zero.
Proof.
  induction m as [|[k' v] m IH]; intro H; [reflexivity|].
  simpl in *. apply andb_true_iff in H. destruct H as [Hk H].
  apply negb_true_iff in Hk. rewrite Hk. now apply IH.
Qed.

(** X13. The loader of the tests fails exactly on the key it is told to
    fail on. On any other key that its two maps do not hold it answers
    with no page, no further key and no error, so a pager standing at such
    a key gets the nil page from [Next] and is fully loaded afterwards. *)
Theorem fakeLoader_ends_at_an_unknown_key
    (l : fakeLoader) (s : @State Z unit unit) :
  nextPageLoader (pager s) = Some (fakeLoader_Load l) ->
  IsAllLoaded (pager s) = false ->
  onceAgrees (pager s) = true ->
  (errOnPageKey l = nextPageKey (pager s) ->
   Next tt s
   = Returns (None, Some (Errorf_page (nextPageKey (pager s))
                                      (errorString "test error")))
       (mkState (pager s) tt
          (loads s ++ [(nextPageKey (pager s), pageSize (pager s))]))) /\
  (errOnPageKey l <> nextPageKey (pager s) ->
   forallb (fun kv => negb (String.eqb (fst kv) (nextPageKey (pager s))))
           (pageByKey l) = true ->
   forallb (fun kv => negb (String.eqb (fst kv) (nextPageKey (pager s))))
           (nextPageKeyByPageKey l) = true ->
   Next tt s
   = Returns (None, None)
       (mkState (mkPager (pageSize (pager s)) "" (Some (fakeLoader_Load l))
                         true (mkOnce true)) tt
          (loads s ++ [(nextPageKey (pager s), pageSize (pager s))]))).
Proof.
  intros Hl Hn Ho. split.
  - intro He.
    apply (Next_when_Load_fails tt s (fakeLoader_Load l) None ""
             (errorString "test error") tt Hn Hl).
    simpl. apply String.eqb_eq in He. rewrite He.
    now destruct (loaderState s).
  - intros He Hp Hk.
    rewrite (Next_when_Load_succeeds tt s (fakeLoader_Load l) None "" tt Hn Hl).
    + unfold onceAgrees in Ho. apply Bool.eqb_prop in Ho.
      destruct (isFirstPageLoadedOnce (pager s)) as [[|]]; simpl in *;
        now rewrite <- ?Ho.
    + simpl. apply String.eqb_neq in He. rewrite He.
      rewrite (mapIndex_absent None _ _ Hp), (mapIndex_absent "" _ _ Hk).
      now destruct (loaderState s).
Qed.

(** ** Instances of the further properties *)

Lemma New_succeeds_exactly_on_valid_settings_with_a_loader_witness :
  New (map option_of
         [SetPageSize 20; SetNextPageKey "next-page-key";
          SetNextPageLoader (Some emptyLoader)])
  = (Some (mkPager 20 "next-page-key" (Some emptyLoader) false (mkOnce false)),
     None).
Proof.
  destruct (New_succeeds_exactly_on_valid_settings_with_a_loader
              [SetPageSize 20; SetNextPageKey "next-page-key";
               SetNextPageLoader (Some emptyLoader)]) as [Hyes _].
  destruct Hyes as [Hnew _]; [reflexivity | reflexivity |]. exact Hnew.
Defined.

Lemma New_fails_with_the_first_invalid_option_witness :
  New (map option_of
         [SetNextPageLoader (Some emptyLoader); SetNextPageKey "";
          SetPageSize 0])
  = (None, Some (errorString "next page key must not be empty")).
Proof.
  apply (New_fails_with_the_first_invalid_option
           [SetNextPageLoader (Some emptyLoader); SetNextPageKey "";
            SetPageSize 0]).
  reflexivity.
Defined.

Lemma calls_keep_the_configuration_witness :
  pageSize (pager threePagesDone) = 3 /\
  wellFormed (pager threePagesDone) = true.
Proof.
  destruct (calls_keep_the_configuration 3 [CallNext tt; CallAll tt]
              (fresh (builtWith 3 (threePagesLoader "no-error")))
              threePagesDone
              [(Some [1; 2; 3], None); (Some [4; 5; 6; 7; 8], None)])
    as (Hs & _ & _ & Hw); [reflexivity|].
  split; [exact Hs|]. apply Hw. reflexivity.
Defined.

Lemma calls_ask_for_the_configured_page_size_witness :
  exists calls : list LoadCall,
    loads threePagesDone = [] ++ calls /\
    Forall (fun c => snd c = 3) calls.
Proof.
  apply (calls_ask_for_the_configured_page_size 3 [CallNext tt; CallAll tt]
           (fresh (builtWith 3 (threePagesLoader "no-error")))
           threePagesDone
           [(Some [1; 2; 3], None); (Some [4; 5; 6; 7; 8], None)]).
  reflexivity.
Defined.

Lemma calls_never_panic_with_a_loader_witness :
  runCalls 3 [CallAll tt; CallNext tt; CallAll tt]
           (fresh (builtWith 3 (threePagesLoader "second")))
  = Returns
      [(Some [1; 2; 3],
        Some (wrapError "page second: test error" (errorString "test error")));
       (None,
        Some (wrapError "page second: test error" (errorString "test error")));
       (Some [],
        Some (wrapError "page second: test error" (errorString "test error")))]
      (mkState (mkPager 3 "second" (Some (threePagesLoader "second"))
                        true (mkOnce true)) tt
         [("", 3); ("second", 3); ("second", 3); ("second", 3)]) /\
  isPanic (runCalls 3 [CallAll tt; CallNext tt; CallAll tt]
             (fresh (builtWith 3 (threePagesLoader "second")))) = false.
Proof.
  split; [reflexivity|].
  apply calls_never_panic_with_a_loader;
    [reflexivity | vm_compute; split; discriminate].
Defined.

Lemma methods_panic_exactly_without_a_loader_witness :
  Next tt (mkState zeroValue tt [])
    = Panics nilDereference (mkState zeroValue tt []) /\
  isPanic (All 1 tt (mkState zeroValue tt [])) = true /\
  All 3 tt (fresh (builtWith (2 ^ 62) (threePagesLoader "no-error")))
    = Panics makesliceCap
        (fresh (builtWith (2 ^ 62) (threePagesLoader "no-error"))).
Proof.
  destruct (methods_panic_exactly_without_a_loader tt
              (mkState zeroValue tt [])) as (_ & HN & HA & _).
  destruct (methods_panic_exactly_without_a_loader tt
              (fresh (builtWith (2 ^ 62) (threePagesLoader "no-error"))))
    as (_ & _ & _ & Hbig).
  split; [apply HN; reflexivity|].
  split; [apply (HA O); right; right; split; reflexivity|].
  apply Hbig. right. vm_compute. reflexivity.
Defined.

Lemma Next_errors_come_from_the_loader_witness :
  Next tt (mkState (mkPager 3 "third" (Some (threePagesLoader "third"))
                            true (mkOnce true)) tt [])
  = Returns (None, Some (wrapError "page third: test error"
                                   (errorString "test error")))
      (mkState (mkPager 3 "third" (Some (threePagesLoader "third"))
                        true (mkOnce true)) tt [("third", 3)]) /\
  exists (ld : @Loader Z unit unit) (pg : slice Z) (k : string) (e : error),
    Load ld tt "third" 3 tt = ((pg, k, Some e), tt) /\
    wrapError "page third: test error" (errorString "test error")
    = Errorf_page "third" e.
Proof.
  split; [reflexivity|].
  destruct (Next_errors_come_from_the_loader tt
              (mkState (mkPager 3 "third" (Some (threePagesLoader "third"))
                                true (mkOnce true)) tt [])
              (mkState (mkPager 3 "third" (Some (threePagesLoader "third"))
                                true (mkOnce true)) tt [("third", 3)])
              None
              (wrapError "page third: test error" (errorString "test error")))
    as (_ & _ & _ & ld & pg & k & e & _ & HL & He); [reflexivity|].
  exists ld, pg, k, e. split; [exact HL|exact He].
Defined.

Lemma All_never_returns_nil_witness :
  All 1 tt (fresh (builtWith 3 (threePagesLoader "")))
  = Returns (Some [],
             Some (wrapError "page : test error" (errorString "test error")))
      (mkState (builtWith 3 (threePagesLoader "")) tt [("", 3)]) /\
  exists items : list Z, Some (@nil Z) = Some items.
Proof.
  split; [reflexivity|].
  apply (All_never_returns_nil tt 1
           (fresh (builtWith 3 (threePagesLoader "")))
           (mkState (builtWith 3 (threePagesLoader "")) tt [("", 3)])
           (Some [])
           (Some (wrapError "page : test error" (errorString "test error")))).
  reflexivity.
Defined.

Lemma All_ends_loaded_or_at_the_failed_key_witness :
  All 2 tt (fresh (builtWith 3 (threePagesLoader "second")))
  = Returns (Some [1; 2; 3],
             Some (wrapError "page second: test error"
                             (errorString "test error")))
      (mkState (mkPager 3 "second" (Some (threePagesLoader "second"))
                        true (mkOnce true)) tt
               [("", 3); ("second", 3)]) /\
  exists (ld : @Loader Z unit unit) (pg : slice Z) (k : string)
         (cause : error) (earlier : list LoadCall),
    Load ld tt "second" 3 tt = ((pg, k, Some cause), tt) /\
    [("", 3); ("second", 3)] = earlier ++ [("second", 3)] /\
    wrapError "page second: test error" (errorString "test error")
    = Errorf_page "second" cause.
Proof.
  split; [reflexivity|].
  destruct (All_ends_loaded_or_at_the_failed_key tt 2
              (fresh (builtWith 3 (threePagesLoader "second")))
              (mkState (mkPager 3 "second" (Some (threePagesLoader "second"))
                                true (mkOnce true)) tt
                       [("", 3); ("second", 3)])
              (Some [1; 2; 3])
              (Some (wrapError "page second: test error"
                               (errorString "test error"))))
    as (_ & Herr); [reflexivity|].
  destruct (Herr _ eq_refl)
    as (ld & pg & k & cause & ls & earlier & _ & HL & Hlog & Hc & _).
  destruct ls. exists ld, pg, k, cause, earlier.
  split; [exact HL|]. split; [exact Hlog|exact Hc].
Defined.

Lemma All_is_Next_then_All_witness :
  All 3 tt (fresh (builtWith 3 (threePagesLoader "no-error")))
  = Returns (Some [1; 2; 3; 4; 5; 6; 7; 8], None) threePagesDone.
Proof.
  apply (All_is_Next_then_All tt 2
           (fresh (builtWith 3 (threePagesLoader "no-error")))
           threePagesBegun threePagesDone
           (Some [1; 2; 3]) [4; 5; 6; 7; 8] None); reflexivity.
Defined.

Lemma first_fetch_asks_for_the_configured_page_witness :
  exists (r : slice Z * option error) (s' : @State Z unit unit),
    Next tt (mkState (mkPager 100 "custom-page-key" (Some emptyLoader)
                              false (mkOnce false)) tt [])
      = Returns r s' /\
    loads s' = [("custom-page-key", 100)].
Proof.
  apply (first_fetch_asks_for_the_configured_page
           [SetNextPageKey "custom-page-key";
            SetNextPageLoader (Some emptyLoader)]
           (mkPager 100 "custom-page-key" (Some emptyLoader)
                    false (mkOnce false)) tt tt []).
  reflexivity.
Defined.

Lemma All_starts_at_the_current_key_witness :
  exists calls : list LoadCall,
    loads threePagesDone = [("", 3)] ++ ("second", 3) :: calls.
Proof.
  apply (All_starts_at_the_current_key tt 2 threePagesBegun threePagesDone
           (Some [4; 5; 6; 7; 8], None)); reflexivity.
Defined.

Lemma fakeLoader_ends_at_an_unknown_key_witness :
  Next tt (mkState (mkPager 3 "fourth" (Some (threePagesLoader "no-error"))
                            true (mkOnce true)) tt [])
  = Returns (None, None)
      (mkState (exhausted 3 (threePagesLoader "no-error")) tt [("fourth", 3)]).
Proof.
  destruct (fakeLoader_ends_at_an_unknown_key (threePages "no-error")
              (mkState (mkPager 3 "fourth" (Some (threePagesLoader "no-error"))
                                true (mkOnce true)) tt []))
    as (_ & Hend); [reflexivity | reflexivity | reflexivity |].
  apply Hend; [discriminate | reflexivity | reflexivity].
Defined.
